(** * The chat room coordinator of [src/worker.ts]

    A shallow embedding of the [ChatRoom] Durable Object: its session set,
    its bounded message history, the storage it mirrors the history to, the
    sockets it writes to, and the four entry points the runtime calls
    ([fetch], the socket listeners [handleMessage] and [handleClose], and
    [alarm]).

    Conventions of the embedding.
    - A JavaScript object with reference identity (a session, a socket) is a
      natural number handed out by an allocator kept in the state.
    - [crypto.randomUUID()] and [Date.now()] are read from the environment:
      every entry point takes the values those calls return as arguments,
      one argument per call site that is evaluated.
    - [JSON.parse] is the runtime's: an inbound text frame enters the model
      as the outcome of parsing it ([None] when [JSON.parse] throws).
    - [JSON.stringify] is the runtime's: an outbound text frame is kept as
      the value that was serialized.
    - Every effect on the outside world (a socket send, a storage write, a
      console line) is appended to a trace, in program order. *)

From Stdlib Require Import ZArith String List Ascii.
From Stdlib Require Import Floats.SpecFloat.
From stdpp Require Import base option list gmap strings sorting.

Local Open Scope Z_scope.
Local Open Scope string_scope.
Local Open Scope list_scope.

(** ** JavaScript values, as [JSON.parse] produces them *)

#[local] Set Warnings "-register-all".

(** A number is an IEEE 754 double; [JSON.parse] never yields NaN but can
    yield an infinity ("1e999") and both zeros. The members of an object are
    listed in the order of the text. *)
Inductive JSValue :=
| JNull
| JBool (b : bool)
| JNumber (x : spec_float)
| JString (s : string)
| JArray (elements : list JSValue)
| JObject (members : list (string * JSValue)).

Inductive JSError := SyntaxError | TypeError.

(** The value of member [key] of a parsed object: on a repeated key the last
    member of the text wins. *)
Definition own_property (key : string) (members : list (string * JSValue))
  : option JSValue :=
  snd <$> List.find (λ kv, String.eqb (fst kv) key) (rev members).

(** [v.key] for a key that no prototype defines (such as [type] and
    [content]): reading a property of [null] throws, a primitive or an array
    has no such property ([undefined], here [None]). *)
Definition get_property (v : JSValue) (key : string) : JSError + option JSValue :=
  match v with
  | JNull => inl TypeError
  | JObject members => inr (own_property key members)
  | _ => inr None
  end.

(** ToBoolean. [None] is [undefined]. *)
Definition truthy (v : option JSValue) : bool :=
  match v with
  | None => false
  | Some JNull => false
  | Some (JBool b) => b
  | Some (JNumber (S754_zero _)) => false
  | Some (JNumber S754_nan) => false
  | Some (JNumber _) => true
  | Some (JString s) => negb (String.eqb s "")
  | Some (JArray _) => true
  | Some (JObject _) => true
  end.

(** [v === s] for a string literal [s]. *)
Definition strict_equals_string (v : option JSValue) (s : string) : bool :=
  match v with
  | Some (JString t) => String.eqb t s
  | _ => false
  end.

(** ** The data model *)

Module Session.
(** [interface WebSocketSession]. [ref] is the identity of the object (the
    session set compares by reference); [webSocket] is the identity of the
    server socket; [quit] is optional. *)
Record t := mk {
  ref : nat;
  webSocket : nat;
  userId : string;
  username : string;
  quit : option bool
}.
End Session.
Abbreviation WebSocketSession := Session.t.

Inductive MessageType := message | join | leave | presence.

Module Message.
(** [interface ChatMessage]. [content] is optional; at run time it holds
    whatever value the frame carried. *)
Record t := mk {
  id : string;
  type : MessageType;
  userId : string;
  username : string;
  content : option JSValue;
  timestamp : Z
}.
End Message.
Abbreviation ChatMessage := Message.t.

(** The texts the room sends, each kept as the value given to
    [JSON.stringify]. *)
Inductive Text :=
| HistoryText (messages : list ChatMessage)
    (* { type: 'history', messages } *)
| MessageText (m : ChatMessage)
    (* a ChatMessage *)
| PresenceText (users : list (string * string))
    (* { type: 'presence', users: [{ userId, username }, ...] } *).

(** A server socket is in the map of sockets from [accept()] on: open until
    it is closed, by the room or under it. *)
Inductive ReadyState := Open | Closed.

Inductive Effect :=
| Accept (ws : nat)
| Send (ws : nat) (text : Text)          (* [send] handed the text to the channel *)
| SendThrew (ws : nat) (text : Text)     (* [send] threw *)
| Close (ws : nat)
| ConsoleError (label : string)
| StoragePut (messages : list ChatMessage)
| StorageSetAlarm (scheduledTime : Z).

(** The object's fields ([sessions], [messageHistory]) and the part of the
    world it acts on: the storage key ['messages'], the single alarm slot,
    the sockets, the listeners wired on them, the allocator and the trace.
    A [Set] iterates in insertion order, so it is a list without repetition
    of [Session.ref]. [fetch] wires the message, close and error listeners
    of a socket together, all three closed over one session: [listeners]
    maps the socket to that session. *)
Record ChatRoom := mkRoom {
  sessions : list WebSocketSession;
  messageHistory : list ChatMessage;
  stored_messages : option (list ChatMessage);
  stored_alarm : option Z;
  sockets : gmap nat ReadyState;
  listeners : gmap nat WebSocketSession;
  next_ref : nat;
  trace : list Effect
}.

Definition set_sessions (f : list WebSocketSession → list WebSocketSession)
    (st : ChatRoom) : ChatRoom :=
  mkRoom (f (sessions st)) (messageHistory st) (stored_messages st)
         (stored_alarm st) (sockets st) (listeners st) (next_ref st) (trace st).

Definition set_messageHistory (f : list ChatMessage → list ChatMessage)
    (st : ChatRoom) : ChatRoom :=
  mkRoom (sessions st) (f (messageHistory st)) (stored_messages st)
         (stored_alarm st) (sockets st) (listeners st) (next_ref st) (trace st).

Definition set_stored_messages (v : option (list ChatMessage))
    (st : ChatRoom) : ChatRoom :=
  mkRoom (sessions st) (messageHistory st) v
         (stored_alarm st) (sockets st) (listeners st) (next_ref st) (trace st).

Definition set_stored_alarm (v : option Z) (st : ChatRoom) : ChatRoom :=
  mkRoom (sessions st) (messageHistory st) (stored_messages st)
         v (sockets st) (listeners st) (next_ref st) (trace st).

Definition set_sockets (f : gmap nat ReadyState → gmap nat ReadyState)
    (st : ChatRoom) : ChatRoom :=
  mkRoom (sessions st) (messageHistory st) (stored_messages st)
         (stored_alarm st) (f (sockets st)) (listeners st) (next_ref st) (trace st).

Definition set_listeners
    (f : gmap nat WebSocketSession → gmap nat WebSocketSession)
    (st : ChatRoom) : ChatRoom :=
  mkRoom (sessions st) (messageHistory st) (stored_messages st)
         (stored_alarm st) (sockets st) (f (listeners st)) (next_ref st)
         (trace st).

Definition set_next_ref (n : nat) (st : ChatRoom) : ChatRoom :=
  mkRoom (sessions st) (messageHistory st) (stored_messages st)
         (stored_alarm st) (sockets st) (listeners st) n (trace st).

Definition emit (es : list Effect) (st : ChatRoom) : ChatRoom :=
  mkRoom (sessions st) (messageHistory st) (stored_messages st)
         (stored_alarm st) (sockets st) (listeners st) (next_ref st) (trace st ++ es).

(** ** Computations: state and exceptions *)

Inductive Completion (A : Type) :=
| Normal (a : A)
| Throw (e : JSError).
Arguments Normal {A} a.
Arguments Throw {A} e.

Definition M (A : Type) : Type := ChatRoom → Completion A * ChatRoom.

#[export] Instance M_ret : MRet M := λ A a st, (Normal a, st).

#[export] Instance M_bind : MBind M := λ A B f m st,
  match m st with
  | (Normal a, st') => f a st'
  | (Throw e, st') => (Throw e, st')
  end.

Definition throw {A} (e : JSError) : M A := λ st, (Throw e, st).

Definition gets {A} (f : ChatRoom → A) : M A := λ st, (Normal (f st), st).

Definition modify (f : ChatRoom → ChatRoom) : M unit := λ st, (Normal tt, f st).

(** [try { body } catch (error) { handler }] *)
Definition try_catch (body : M unit) (handler : JSError → M unit) : M unit :=
  λ st,
    match body st with
    | (Normal a, st') => (Normal a, st')
    | (Throw e, st') => handler e st'
    end.

(** [collection.forEach(callback)] for a callback that leaves the collection
    alone. *)
Fixpoint forEach {A} (l : list A) (callback : A → M unit) : M unit :=
  match l with
  | [] => mret tt
  | x :: l' => callback x;; forEach l' callback
  end.

Definition lift {A} (r : JSError + A) : M A :=
  match r with
  | inl e => throw e
  | inr a => mret a
  end.

Definition when (b : bool) (m : M unit) : M unit := if b then m else mret tt.

(** ** The platform: sockets, storage, console *)

(** A fresh object identity. *)
Definition alloc : M nat :=
  n ← gets next_ref;
  modify (set_next_ref (S n));;
  mret n.

(** [server.accept()] *)
Definition ws_accept (ws : nat) : M unit :=
  modify (set_sockets <[ws := Open]>);;
  modify (emit [Accept ws]).

(** [webSocket.send(text)]: throws unless the socket is open. *)
Definition ws_send (ws : nat) (text : Text) : M unit :=
  state ← gets (λ st, sockets st !! ws);
  match state with
  | Some Open => modify (emit [Send ws text])
  | _ => modify (emit [SendThrew ws text]);; throw TypeError
  end.

(** [webSocket.close()]: throws when there is nothing left to close. *)
Definition ws_close (ws : nat) : M unit :=
  state ← gets (λ st, sockets st !! ws);
  match state with
  | Some Open =>
      modify (set_sockets <[ws := Closed]>);;
      modify (emit [Close ws])
  | _ => throw TypeError
  end.

(** [console.error(label, error)] *)
Definition console_error (label : string) : M unit :=
  modify (emit [ConsoleError label]).

(** [this.ctx.storage.put('messages', value)]: storage keeps a copy. *)
Definition storage_put (value : list ChatMessage) : M unit :=
  modify (set_stored_messages (Some value));;
  modify (emit [StoragePut value]).

(** [this.ctx.storage.setAlarm(scheduledTime)]: one slot, overwritten. *)
Definition storage_setAlarm (scheduledTime : Z) : M unit :=
  modify (set_stored_alarm (Some scheduledTime));;
  modify (emit [StorageSetAlarm scheduledTime]).

(** [this.sessions.add(session)] and [this.sessions.delete(session)],
    by reference. *)
Definition same_session (a b : WebSocketSession) : bool :=
  Nat.eqb (Session.ref a) (Session.ref b).

Definition set_add (session : WebSocketSession) (set : list WebSocketSession)
  : list WebSocketSession :=
  if existsb (same_session session) set then set else set ++ [session].

Definition set_delete (session : WebSocketSession) (set : list WebSocketSession)
  : list WebSocketSession :=
  List.filter (λ s, negb (same_session session s)) set.

(** [array.slice(-n)]: the last [n] elements, all of them when there are
    fewer. *)
Definition slice_last {A} (n : nat) (l : list A) : list A :=
  drop (length l - n) l.

(** ** The request and the response *)

(** The parts of the request [fetch] reads: the query of the URL, decoded,
    in order, and the headers. *)
Record Request := mkRequest {
  searchParams : list (string * string);
  headers : list (string * string)
}.

(** [url.searchParams.get(name)]: the first value, or [null]. *)
Definition searchParams_get (request : Request) (name : string) : option string :=
  snd <$> List.find (λ kv, String.eqb (fst kv) name) (searchParams request).

Definition lower_ascii (c : ascii) : ascii :=
  let n := nat_of_ascii c in
  if (Nat.leb 65 n && Nat.leb n 90)%bool then ascii_of_nat (n + 32) else c.

Fixpoint lower (s : string) : string :=
  match s with
  | EmptyString => EmptyString
  | String c s' => String (lower_ascii c) (lower s')
  end.

(** [request.headers.get(name)]: header names compare without case, the
    values of a repeated header are joined, and an absent header is
    [null]. *)
Definition headers_get (request : Request) (name : string) : option string :=
  let values :=
    snd <$> List.filter (λ kv, String.eqb (lower (fst kv)) (lower name))
                        (headers request) in
  match values with
  | [] => None
  | _ => Some (String.concat ", " values)
  end.

Record Response := mkResponse {
  status : nat;
  body : option string;
  response_webSocket : option nat
}.

(** [!s] for a string or [null]. *)
Definition not_string (s : option string) : bool :=
  match s with
  | None => true
  | Some s => String.eqb s ""
  end.

(** ** The methods of [ChatRoom] *)

(** The constructor, given what [storage.get('messages')] returns. *)
Definition constructor (stored : option (list ChatMessage)) : ChatRoom :=
  let st := mkRoom [] [] stored None ∅ ∅ 0 [] in
  match stored with
  | Some messages => set_messageHistory (λ _, messages) st
  | None => st
  end.

Definition broadcast (message : ChatMessage) : M unit :=
  let messageStr := MessageText message in
  set ← gets sessions;
  forEach set (λ session,
    try_catch
      (ws_send (Session.webSocket session) messageStr)
      (λ error, console_error "Error broadcasting to session:")).

Definition sendMessageHistory (session : WebSocketSession) : M unit :=
  history ← gets messageHistory;
  let historyMessage := HistoryText history in
  try_catch
    (ws_send (Session.webSocket session) historyMessage)
    (λ error, console_error "Error sending history:").

Definition sendPresence (session : WebSocketSession) : M unit :=
  set ← gets sessions;
  let users := (λ s, (Session.userId s, Session.username s)) <$> set in
  let presenceMessage := PresenceText users in
  try_catch
    (ws_send (Session.webSocket session) presenceMessage)
    (λ error, console_error "Error sending presence:").

(** [fetch(request)]; [uuid] and [now] are read for the join message. *)
Definition fetch (request : Request) (uuid : string) (now : Z) : M Response :=
  let userId := searchParams_get request "userId" in
  let username := searchParams_get request "username" in
  if (not_string userId || not_string username)%bool then
    mret (mkResponse 400 (Some "Missing userId or username") None)
  else
    let upgradeHeader := headers_get request "Upgrade" in
    if negb (bool_decide (upgradeHeader = Some "websocket")) then
      mret (mkResponse 426 (Some "Expected WebSocket upgrade") None)
    else
      let userId := default "" userId in
      let username := default "" username in
      client ← alloc;
      server ← alloc;
      ws_accept server;;
      ref ← alloc;
      let session := Session.mk ref server userId username None in
      modify (set_sessions (set_add session));;
      (* server.addEventListener('message' | 'close' | 'error', ...) *)
      modify (set_listeners <[server := session]>);;
      sendMessageHistory session;;
      broadcast (Message.mk uuid join userId username None now);;
      sendPresence session;;
      mret (mkResponse 101 None (Some client)).

(** [handleMessage(session, data)]; [data] is given as the outcome of
    [JSON.parse(data)]. *)
Definition handleMessage (session : WebSocketSession) (data : option JSValue)
    (uuid : string) (now : Z) : M unit :=
  try_catch
    (parsed ← lift (from_option inr (inl SyntaxError) data);
     type ← lift (get_property parsed "type");
     if strict_equals_string type "message" then
       content ← lift (get_property parsed "content");
       if truthy content then
         let message :=
           Message.mk uuid message (Session.userId session)
                      (Session.username session) content now in
         modify (set_messageHistory (λ h, h ++ [message]));;
         len ← gets (λ st, length (messageHistory st));
         when (Nat.ltb 100 len)
              (modify (set_messageHistory (slice_last 100)));;
         history ← gets messageHistory;
         storage_put history;;
         broadcast message
       else mret tt
     else mret tt)
    (λ error, console_error "Error handling message:").

(** [!session.quit] *)
Definition not_quit (session : WebSocketSession) : bool :=
  match Session.quit session with
  | Some true => false
  | _ => true
  end.

(** [handleClose(session)]; [uuid] and [now] are read for the leave
    message, when one is built. *)
Definition handleClose (session : WebSocketSession) (uuid : string) (now : Z)
  : M unit :=
  modify (set_sessions (set_delete session));;
  when (not_quit session)
       (broadcast (Message.mk uuid leave (Session.userId session)
                              (Session.username session) None now));;
  try_catch (ws_close (Session.webSocket session)) (λ error, mret tt).

(** [alarm()]; [now1] and [now2] are what its two calls of [Date.now()]
    return. *)
Definition alarm (now1 now2 : Z) : M unit :=
  let oneDayAgo := now1 - 24 * 60 * 60 * 1000 in
  modify (set_messageHistory
            (List.filter (λ msg, Z.ltb oneDayAgo (Message.timestamp msg))));;
  history ← gets messageHistory;
  storage_put history;;
  storage_setAlarm (now2 + 60 * 60 * 1000).

(** ** The room as a transition system *)

(** What the runtime can do to the object: deliver a request, fire a
    listener of a socket (an error and a close both end in [handleClose]),
    fire the alarm. [PeerGone] is the transport going away under a socket
    before any listener has run: from then on [send] throws. *)
Inductive Event :=
| Fetch (request : Request) (uuid : string) (now : Z)
| SocketMessage (ws : nat) (data : option JSValue) (uuid : string) (now : Z)
| SocketClose (ws : nat) (uuid : string) (now : Z)
| SocketError (ws : nat) (uuid : string) (now : Z)
| AlarmFired (now1 now2 : Z)
| PeerGone (ws : nat).

Definition on_socket (ws : nat) (listener : WebSocketSession → M unit) : M unit :=
  wired ← gets (λ st, listeners st !! ws);
  match wired with
  | Some session => listener session
  | None => mret tt
  end.

Definition step (e : Event) (st : ChatRoom) : ChatRoom :=
  match e with
  | Fetch request uuid now => snd (fetch request uuid now st)
  | SocketMessage ws data uuid now =>
      snd (on_socket ws (λ session, handleMessage session data uuid now) st)
  | SocketClose ws uuid now =>
      snd (on_socket ws (λ session, handleClose session uuid now) st)
  | SocketError ws uuid now =>
      snd (on_socket ws (λ session, handleClose session uuid now) st)
  | AlarmFired now1 now2 => snd (alarm now1 now2 st)
  | PeerGone ws =>
      match sockets st !! ws with
      | Some _ => set_sockets <[ws := Closed]> st
      | None => st
      end
  end.

Definition run (events : list Event) (st : ChatRoom) : ChatRoom :=
  fold_left (λ st e, step e st) events st.

(** * Vocabulary for the properties

    Nothing below changes the model: these definitions read traces and
    rooms, name what the handlers build, and fix the rooms and frames the
    examples run on. *)

(** ** Reading a trace *)

Definition broadcast_label := "Error broadcasting to session:".

Definition history_label := "Error sending history:".

Definition presence_label := "Error sending presence:".

Definition message_label := "Error handling message:".

(** What one guarded [send] leaves in the trace. *)
Definition attempt (socks : gmap nat ReadyState) (label : string) (text : Text)
    (session : WebSocketSession) : list Effect :=
  match socks !! Session.webSocket session with
  | Some Open => [Send (Session.webSocket session) text]
  | _ => [SendThrew (Session.webSocket session) text; ConsoleError label]
  end.

(** The calls of [send] in a trace, thrown or not. *)
Definition attempts (tr : list Effect) : list (nat * Text) :=
  tr ≫= λ e,
    match e with
    | Send ws text | SendThrew ws text => [(ws, text)]
    | _ => []
    end.

(** The texts a socket was handed. *)
Definition delivered (ws : nat) (tr : list Effect) : list Text :=
  tr ≫= λ e,
    match e with
    | Send ws' text => if Nat.eqb ws' ws then [text] else []
    | _ => []
    end.

(** Whether [send] on a socket goes through. *)
Definition is_open (socks : gmap nat ReadyState) (ws : nat) : bool :=
  match socks !! ws with
  | Some Open => true
  | _ => false
  end.

(** The chat messages a text carries. *)
Definition text_messages (text : Text) : list ChatMessage :=
  match text with
  | HistoryText messages => messages
  | MessageText m => [m]
  | PresenceText _ => []
  end.

(** The chat messages an effect carries out of the object. *)
Definition effect_messages (e : Effect) : list ChatMessage :=
  match e with
  | Send _ text | SendThrew _ text => text_messages text
  | StoragePut messages => messages
  | _ => []
  end.

(** ** Reading a room *)

(** The presence roster of a set of sessions. *)
Definition roster (set : list WebSocketSession) : list (string * string) :=
  (λ s, (Session.userId s, Session.username s)) <$> set.

(** Live sessions are distinct objects with distinct sockets, all handed out
    by the allocator. *)
Definition wf (st : ChatRoom) : Prop :=
  NoDup (Session.webSocket <$> sessions st) ∧
  NoDup (Session.ref <$> sessions st) ∧
  Forall (λ s, (Session.webSocket s < next_ref st)%nat ∧
               (Session.ref s < next_ref st)%nat) (sessions st).

(** The history, in memory and in storage. *)
Definition kept (st : ChatRoom) : list ChatMessage :=
  messageHistory st ++ default [] (stored_messages st).

(** Every chat message the room holds or has let out. *)
Definition room_messages (st : ChatRoom) : list ChatMessage :=
  kept st ++ (trace st ≫= effect_messages).

(** The invariant of [ChatMessage]: a content exactly on messages. *)
Definition content_iff_message (m : ChatMessage) : Prop :=
  is_Some (Message.content m) ↔ Message.type m = message.

(** ** What the handlers build *)

(** The session and the join message [fetch] builds for a request. *)
Definition admitted_session (request : Request) (st : ChatRoom) : WebSocketSession :=
  Session.mk (S (S (next_ref st))) (S (next_ref st))
             (default "" (searchParams_get request "userId"))
             (default "" (searchParams_get request "username")) None.

Definition joined (request : Request) (uuid : string) (now : Z) : ChatMessage :=
  Message.mk uuid join (default "" (searchParams_get request "userId"))
             (default "" (searchParams_get request "username")) None now.

(** The effects of a successful [fetch], in program order. *)
Definition admission_effects (st : ChatRoom) (session : WebSocketSession)
    (joined : ChatMessage) : list Effect :=
  let server := Session.webSocket session in
  [Accept server; Send server (HistoryText (messageHistory st))]
  ++ (sessions st ≫= attempt (sockets st) broadcast_label (MessageText joined))
  ++ [Send server (MessageText joined);
      Send server (PresenceText (roster (sessions st ++ [session])))].

(** The content a frame carries past the guard of [handleMessage]:
    [parsed.type === 'message' && parsed.content]. *)
Definition accepted (data : option JSValue) : option JSValue :=
  match data with
  | Some (JObject members) =>
      if strict_equals_string (own_property "type" members) "message" then
        if truthy (own_property "content" members)
        then own_property "content" members else None
      else None
  | _ => None
  end.

(** The frames on which the body of [handleMessage] throws. *)
Definition throws (data : option JSValue) : bool :=
  match data with
  | None | Some JNull => true
  | _ => false
  end.

(** A frame is refused when it does not parse, when reading its type does
    not give the string "message" (which includes the parsed value [null],
    where the read throws), or when its content is falsy: absent, [null],
    [false], a zero, or the empty string. *)
Definition refused (data : option JSValue) : Prop :=
  data = None
  ∨ ∃ parsed, data = Some parsed
      ∧ (get_property parsed "type" ≠ inr (Some (JString "message"))
         ∨ ∃ content, get_property parsed "content" = inr content
                      ∧ truthy content = false).

(** The frames of the shape [{ type: "message", content: string }]. *)
Definition message_shaped (data : option JSValue) : Prop :=
  ∃ members s,
    data = Some (JObject members)
    ∧ own_property "type" members = Some (JString "message")
    ∧ own_property "content" members = Some (JString s).

(** The three messages the room builds: from an accepted frame, on
    admission, on removal. *)
Definition minted (session : WebSocketSession) (content : JSValue)
    (uuid : string) (now : Z) : ChatMessage :=
  Message.mk uuid message (Session.userId session) (Session.username session)
             (Some content) now.

(** The sockets after [webSocket.close()] inside its [try]. *)
Definition closed (ws : nat) (socks : gmap nat ReadyState) : gmap nat ReadyState :=
  match socks !! ws with
  | Some Open => <[ws := Closed]> socks
  | _ => socks
  end.

Definition departed (session : WebSocketSession) (uuid : string) (now : Z)
  : ChatMessage :=
  Message.mk uuid leave (Session.userId session) (Session.username session)
             None now.

Definition close_effects (session : WebSocketSession) (uuid : string) (now : Z)
    (st : ChatRoom) : list Effect :=
  (if not_quit session
   then set_delete session (sessions st)
          ≫= attempt (sockets st) broadcast_label
                     (MessageText (departed session uuid now))
   else [])
  ++ match sockets st !! Session.webSocket session with
     | Some Open => [Close (Session.webSocket session)]
     | _ => []
     end.

Definition day : Z := 24 * 60 * 60 * 1000.

Definition hour : Z := 60 * 60 * 1000.

(** The spec's names for the two refusals of [fetch]. *)
Inductive AdmissionError := InvalidRequest | UnsupportedProtocol.

Definition admission_error (r : Response) : option AdmissionError :=
  match status r with
  | 400%nat => Some InvalidRequest
  | 426%nat => Some UnsupportedProtocol
  | _ => None
  end.

(** ** Frames in sequence *)

(** An inbound frame, with what the clock and the generator return while it
    is handled. *)
Record Inbound := mkInbound {
  frame_session : WebSocketSession;
  frame_data : option JSValue;
  frame_uuid : string;
  frame_now : Z
}.

(** The room after the message listener has run on each frame in turn. *)
Definition receive (frames : list Inbound) (st : ChatRoom) : ChatRoom :=
  fold_left
    (λ st f, snd (handleMessage (frame_session f) (frame_data f)
                                (frame_uuid f) (frame_now f) st))
    frames st.

(** The message a frame gives rise to, if it passes the guard. *)
Definition minted_of (f : Inbound) : list ChatMessage :=
  match accepted (frame_data f) with
  | Some content =>
      [minted (frame_session f) content (frame_uuid f) (frame_now f)]
  | None => []
  end.

(** ** Rooms, requests and frames of the examples *)

Definition alice_request : Request :=
  mkRequest [("userId", "alice-1"); ("username", "Alice")]
            [("Upgrade", "websocket")].

Definition bob_request : Request :=
  mkRequest [("userId", "bob-1"); ("username", "Bob")]
            [("upgrade", "websocket")].

Definition carol_request : Request :=
  mkRequest [("userId", "carol-1"); ("username", "Carol")]
            [("Upgrade", "websocket")].

(** A request with an empty [userId], and one that does not ask for an
    upgrade. *)
Definition nameless_request : Request :=
  mkRequest [("userId", ""); ("username", "Alice")] [("Upgrade", "websocket")].

Definition plain_request : Request :=
  mkRequest [("userId", "alice-1"); ("username", "Alice")] [("Accept", "text/html")].

(** The sessions [fetch] creates for them in a fresh room. *)
Definition alice : WebSocketSession := Session.mk 2 1 "alice-1" "Alice" None.

Definition bob : WebSocketSession := Session.mk 5 4 "bob-1" "Bob" None.

(** A fresh room that Alice has joined, and the same room once Bob has too. *)
Definition alice_room : ChatRoom :=
  run [Fetch alice_request "join-a" 1000] (constructor None).

Definition two_room : ChatRoom :=
  run [Fetch alice_request "join-a" 1000; Fetch bob_request "join-b" 2000]
      (constructor None).

(** The frame [{ "type": "message", "content": content }]. *)
Definition text_frame (content : string) : option JSValue :=
  Some (JObject [("type", JString "message"); ("content", JString content)]).

(** The frame [{ "type": "message", "content": true }]. *)
Definition flag_frame : option JSValue :=
  Some (JObject [("type", JString "message"); ("content", JBool true)]).

(** A frame that also claims an identity. *)
Definition forged_frame (content userId username : string) : option JSValue :=
  Some (JObject [("type", JString "message"); ("content", JString content);
                 ("userId", JString userId); ("username", JString username)]).

(** 101 frames from Alice, numbered by their timestamps. *)
Definition burst : list Inbound :=
  (λ n, mkInbound alice (text_frame "hello") "id" (Z.of_nat n)) <$> seq 0 101.

(** The scenario of the specification: Alice joins an empty room and says
    hi, Bob joins, Alice's socket closes, Carol joins. *)
Definition scenario : list Event :=
  [Fetch alice_request "join-a" 1000;
   SocketMessage 1 (text_frame "hi") "msg-1" 1500;
   Fetch bob_request "join-b" 2000;
   SocketClose 1 "leave-a" 3000;
   Fetch carol_request "join-c" 4000].

(** A room with one entry from long ago and one from a moment ago. *)
Definition aged_room : ChatRoom :=
  run [Fetch alice_request "join-a" 1000;
       SocketMessage 1 (text_frame "old") "msg-1" 1500;
       SocketMessage 1 (text_frame "new") "msg-2" 90000000]
      (constructor None).

(** The room of Alice and Bob once Alice's transport is gone. *)
Definition cut_room : ChatRoom := run [PeerGone 1] two_room.

(** ** Reading a run *)

(** What one step adds to the trace. *)
Definition step_effects (e : Event) (st : ChatRoom) : list Effect :=
  match e with
  | Fetch request uuid now =>
      if (not_string (searchParams_get request "userId")
          || not_string (searchParams_get request "username"))%bool then []
      else if bool_decide (headers_get request "Upgrade" = Some "websocket") then
        let session := admitted_session request st in
        let server := Session.webSocket session in
        let set := set_add session (sessions st) in
        let socks := <[server := Open]> (sockets st) in
        [Accept server]
        ++ attempt socks history_label (HistoryText (messageHistory st)) session
        ++ (set ≫= attempt socks broadcast_label
                           (MessageText (joined request uuid now)))
        ++ attempt socks presence_label (PresenceText (roster set)) session
      else []
  | SocketMessage ws data uuid now =>
      match listeners st !! ws with
      | Some session =>
          match accepted data with
          | Some content =>
              let m := minted session content uuid now in
              StoragePut (slice_last 100 (messageHistory st ++ [m]))
              :: (sessions st ≫= attempt (sockets st) broadcast_label
                                         (MessageText m))
          | None => if throws data then [ConsoleError message_label] else []
          end
      | None => []
      end
  | SocketClose ws uuid now | SocketError ws uuid now =>
      match listeners st !! ws with
      | Some session => close_effects session uuid now st
      | None => []
      end
  | AlarmFired now1 now2 =>
      [StoragePut (List.filter (λ msg, Z.ltb (now1 - day) (Message.timestamp msg))
                               (messageHistory st));
       StorageSetAlarm (now2 + hour)]
  | PeerGone _ => []
  end.

(** The times [setAlarm] was called with, in a trace. *)
Definition alarm_times (tr : list Effect) : list Z :=
  tr ≫= λ e,
    match e with
    | StorageSetAlarm scheduledTime => [scheduledTime]
    | _ => []
    end.

(** The times the firings among some events ask to be woken at. *)
Definition rearmed (events : list Event) : list Z :=
  events ≫= λ e,
    match e with
    | AlarmFired _ now2 => [now2 + 60 * 60 * 1000]
    | _ => []
    end.

(** The clock readings of the message events among some events. *)
Definition frame_times (events : list Event) : list Z :=
  events ≫= λ e,
    match e with
    | SocketMessage _ _ _ now => [now]
    | _ => []
    end.

(** Sessions, listeners and sockets agree: live sessions are distinct and
    wired; a wired socket was accepted, carries the session made with it,
    and, while it is open, that session is live. *)
Definition linked (st : ChatRoom) : Prop :=
  wf st
  ∧ Forall (λ s, listeners st !! Session.webSocket s = Some s) (sessions st)
  ∧ (∀ ws s, listeners st !! ws = Some s →
       Session.webSocket s = ws ∧ Session.ref s = S ws
       ∧ (ws < next_ref st)%nat ∧ is_Some (sockets st !! ws))
  ∧ (∀ ws s, listeners st !! ws = Some s → sockets st !! ws = Some Open →
       s ∈ sessions st).

(** Alice in two tabs: the room after two admissions of the same user. *)
Definition tabs_room : ChatRoom :=
  run [Fetch alice_request "join-1" 1000; Fetch alice_request "join-2" 2000]
      (constructor None).

(** The session of her second tab. *)
Definition alice_again : WebSocketSession :=
  Session.mk 5 4 "alice-1" "Alice" None.

(** Events after Alice's socket has closed: Bob speaks, Carol joins. *)
Definition aftermath : list Event :=
  [SocketMessage 4 (text_frame "anyone?") "msg-2" 3500;
   Fetch carol_request "join-c" 4000].

(** What [fetch] asks of a request. *)
Definition has_identity (request : Request) : bool :=
  negb (not_string (searchParams_get request "userId")
        || not_string (searchParams_get request "username")).

Definition asks_websocket (request : Request) : bool :=
  bool_decide (headers_get request "Upgrade" = Some "websocket").

(** The timestamps of a history, in order. *)
Definition timestamps (history : list ChatMessage) : list Z :=
  Message.timestamp <$> history.

(** Alice and Bob talking, by a clock that only moves forward. *)
Definition conversation : list Event :=
  [Fetch alice_request "join-a" 1000;
   SocketMessage 1 (text_frame "hi") "msg-1" 1500;
   Fetch bob_request "join-b" 2000;
   SocketMessage 4 (text_frame "hello") "msg-2" 2500;
   SocketMessage 1 (text_frame "bye") "msg-3" 90000000].

(** Alice and Bob join, then the error listener of Alice's socket runs. *)
Definition error_events : list Event :=
  [Fetch alice_request "join-a" 1000; Fetch bob_request "join-b" 2000;
   SocketError 1 "leave-1" 3000].

(** * Lemmas

    ** Rooms and computations *)

Lemma room_eq st1 st2 :
  sessions st1 = sessions st2 → messageHistory st1 = messageHistory st2 →
  stored_messages st1 = stored_messages st2 → stored_alarm st1 = stored_alarm st2 →
  sockets st1 = sockets st2 → listeners st1 = listeners st2 →
  next_ref st1 = next_ref st2 → trace st1 = trace st2 → st1 = st2.
Proof. destruct st1, st2; simpl; intros; subst; reflexivity. Qed.

Lemma emit_emit a b st : emit b (emit a st) = emit (a ++ b) st.
Proof. apply room_eq; simpl; auto using app_assoc. Qed.

Lemma emit_nil st : emit [] st = st.
Proof. apply room_eq; simpl; auto using app_nil_r. Qed.

Ltac run_M :=
  unfold mbind, M_bind, mret, M_ret, gets, modify, throw, try_catch, when, lift; simpl.

(** ** One guarded send, and a broadcast *)

Lemma guarded_send_run ws label text session st :
  ws = Session.webSocket session →
  try_catch (ws_send ws text) (λ error, console_error label) st
  = (Normal tt, emit (attempt (sockets st) label text session) st).
Proof.
  intros ->. unfold attempt, ws_send, console_error. run_M.
  destruct (sockets st !! Session.webSocket session) as [[]|]; simpl;
    rewrite ?emit_emit; reflexivity.
Qed.

Lemma forEach_send_run label text (l : list WebSocketSession) st :
  forEach l (λ session,
    try_catch (ws_send (Session.webSocket session) text)
              (λ error, console_error label)) st
  = (Normal tt, emit (l ≫= attempt (sockets st) label text) st).
Proof.
  revert st. induction l as [|s l IH]; intros st; simpl.
  - run_M. by rewrite emit_nil.
  - unfold mbind at 1, M_bind at 1. rewrite (guarded_send_run _ _ _ s) by done.
    rewrite IH. simpl. by rewrite emit_emit.
Qed.

Lemma broadcast_run m st :
  broadcast m st
  = (Normal tt,
     emit (sessions st ≫= attempt (sockets st) broadcast_label (MessageText m)) st).
Proof.
  unfold broadcast. unfold mbind at 1, M_bind at 1, gets at 1.
  apply forEach_send_run.
Qed.

Ltac step_M :=
  cbv [mbind M_bind mret M_ret gets modify throw when lift].

(** ** Admission *)

Lemma guarded_send_open ws label text st :
  sockets st !! ws = Some Open →
  try_catch (ws_send ws text) (λ error, console_error label) st
  = (Normal tt, emit [Send ws text] st).
Proof. intros H. unfold ws_send. run_M. by rewrite H. Qed.

Lemma set_add_fresh session set :
  Forall (λ s, (Session.ref s < Session.ref session)%nat) set →
  set_add session set = set ++ [session].
Proof.
  intros H. unfold set_add.
  replace (existsb (same_session session) set) with false; [done|].
  symmetry. apply not_true_is_false. intros [s [Hin Heq]]%existsb_exists.
  rewrite Forall_forall in H. apply list_elem_of_In, H in Hin.
  unfold same_session in Heq. apply Nat.eqb_eq in Heq. lia.
Qed.

Lemma attempt_insert_fresh socks ws state label text (l : list WebSocketSession) :
  Forall (λ s, Session.webSocket s ≠ ws) l →
  l ≫= attempt (<[ws := state]> socks) label text = l ≫= attempt socks label text.
Proof.
  induction 1 as [|s l Hs _ IH]; [done|].
  rewrite !bind_cons, IH. f_equal. unfold attempt.
  by rewrite lookup_insert_ne.
Qed.

Lemma sendMessageHistory_open session st :
  sockets st !! Session.webSocket session = Some Open →
  sendMessageHistory session st
  = (Normal tt,
     emit [Send (Session.webSocket session) (HistoryText (messageHistory st))] st).
Proof.
  intros H. unfold sendMessageHistory.
  unfold mbind at 1, M_bind at 1, gets at 1. by apply guarded_send_open.
Qed.

Lemma sendPresence_open session st :
  sockets st !! Session.webSocket session = Some Open →
  sendPresence session st
  = (Normal tt,
     emit [Send (Session.webSocket session) (PresenceText (roster (sessions st)))] st).
Proof.
  intros H. unfold sendPresence.
  unfold mbind at 1, M_bind at 1, gets at 1. by apply guarded_send_open.
Qed.

Lemma fetch_admit_run request uuid now st userId username :
  searchParams_get request "userId" = Some userId → userId ≠ "" →
  searchParams_get request "username" = Some username → username ≠ "" →
  headers_get request "Upgrade" = Some "websocket" →
  wf st →
  let client := next_ref st in
  let server := S client in
  let session := Session.mk (S server) server userId username None in
  let joined := Message.mk uuid join userId username None now in
  fetch request uuid now st
  = (Normal (mkResponse 101 None (Some client)),
     mkRoom (sessions st ++ [session]) (messageHistory st) (stored_messages st)
            (stored_alarm st) (<[server := Open]> (sockets st))
            (<[server := session]> (listeners st)) (S (S server))
            (trace st ++ admission_effects st session joined)).
Proof.
  intros Hu Hu' Hn Hn' Hh (Hws & Href & Hlt). simpl.
  unfold fetch. rewrite Hu, Hn, Hh. simpl.
  apply String.eqb_neq in Hu', Hn'. rewrite Hu', Hn'. simpl.
  unfold alloc, ws_accept. step_M.
  rewrite sendMessageHistory_open by (simpl; apply lookup_insert_eq).
  rewrite broadcast_run.
  rewrite sendPresence_open by (simpl; apply lookup_insert_eq).
  f_equal. apply room_eq; simpl; try reflexivity.
  - apply set_add_fresh. eapply Forall_impl; [exact Hlt|]. simpl. intros; lia.
  - rewrite set_add_fresh
      by (eapply Forall_impl; [exact Hlt|]; simpl; intros; lia).
    unfold admission_effects. simpl.
    rewrite bind_app, attempt_insert_fresh
      by (eapply Forall_impl; [exact Hlt|]; simpl; intros; lia).
    simpl. unfold attempt at 2. simpl. rewrite lookup_insert_eq. simpl.
    rewrite <- !app_assoc. simpl. reflexivity.
Qed.

(** ** The other handlers, each as one equation *)

Lemma slice_last_short {A} n (l : list A) :
  (length l ≤ n)%nat → slice_last n l = l.
Proof. intros H. unfold slice_last. by replace (length l - n)%nat with 0%nat by lia. Qed.

Lemma slice_last_length {A} n (l : list A) :
  length (slice_last n l) = (length l `min` n)%nat.
Proof. unfold slice_last. rewrite length_drop. lia. Qed.

Lemma handleMessage_accepted_run session data uuid now st content :
  accepted data = Some content →
  let m := minted session content uuid now in
  let history := slice_last 100 (messageHistory st ++ [m]) in
  handleMessage session data uuid now st
  = (Normal tt,
     mkRoom (sessions st) history (Some history) (stored_alarm st)
            (sockets st) (listeners st) (next_ref st)
            (trace st ++ StoragePut history ::
               (sessions st ≫= attempt (sockets st) broadcast_label (MessageText m)))).
Proof.
  intros H. simpl. unfold accepted in H.
  destruct data as [[| | | | |members]|]; try discriminate.
  destruct (strict_equals_string _ _) eqn:Hty; [|discriminate].
  destruct (truthy _) eqn:Htr; [|discriminate].
  unfold handleMessage, try_catch, storage_put. step_M.
  cbv [from_option get_property]. rewrite Hty, H. rewrite H in Htr. rewrite Htr.
  unfold minted.
  destruct (Nat.ltb_spec 100 (length (messageHistory (set_messageHistory
             (λ h, h ++ [Message.mk uuid message (Session.userId session)
                (Session.username session) (Some content) now]) st))))
    as [Hlt|Hle];
    rewrite broadcast_run; f_equal; apply room_eq; simpl;
    rewrite <- ?app_assoc; simpl; try reflexivity;
    simpl in Hle; rewrite (slice_last_short 100 _ Hle); reflexivity.
Qed.

Lemma handleMessage_discarded_run session data uuid now st :
  accepted data = None →
  handleMessage session data uuid now st
  = (Normal tt,
     emit (if throws data then [ConsoleError message_label] else []) st).
Proof.
  intros H. unfold handleMessage, try_catch, console_error. step_M.
  destruct data as [parsed|]; [|reflexivity].
  destruct parsed as [| | | | |members];
    cbv [from_option get_property throws]; rewrite ?emit_nil; try reflexivity.
  unfold accepted in H.
  destruct (strict_equals_string _ _); [|reflexivity].
  destruct (truthy _) eqn:Htr; [|reflexivity].
  destruct (own_property "content" members); discriminate.
Qed.

Lemma handleClose_run session uuid now st :
  handleClose session uuid now st
  = (Normal tt,
     mkRoom (set_delete session (sessions st)) (messageHistory st)
            (stored_messages st) (stored_alarm st)
            (closed (Session.webSocket session) (sockets st))
            (listeners st) (next_ref st)
            (trace st ++ close_effects session uuid now st)).
Proof.
  unfold handleClose, close_effects, closed, departed. step_M.
  destruct (not_quit session); rewrite ?broadcast_run;
    unfold try_catch, ws_close; step_M; simpl;
    destruct (sockets st !! Session.webSocket session) as [[]|]; simpl;
    f_equal; apply room_eq; simpl; rewrite <- ?app_assoc, ?app_nil_r; reflexivity.
Qed.

Lemma alarm_run now1 now2 st :
  let history :=
    List.filter (λ msg, Z.ltb (now1 - day) (Message.timestamp msg))
                (messageHistory st) in
  alarm now1 now2 st
  = (Normal tt,
     mkRoom (sessions st) history (Some history) (Some (now2 + hour))
            (sockets st) (listeners st) (next_ref st)
            (trace st ++ [StoragePut history; StorageSetAlarm (now2 + hour)])).
Proof.
  unfold alarm, storage_put, storage_setAlarm. step_M. simpl.
  f_equal. apply room_eq; simpl; rewrite <- ?app_assoc; reflexivity.
Qed.

Lemma fetch_reject_identity request uuid now st :
  (not_string (searchParams_get request "userId")
   || not_string (searchParams_get request "username"))%bool = true →
  fetch request uuid now st
  = (Normal (mkResponse 400 (Some "Missing userId or username") None), st).
Proof. intros H. unfold fetch. by rewrite H. Qed.

Lemma fetch_reject_upgrade request uuid now st :
  (not_string (searchParams_get request "userId")
   || not_string (searchParams_get request "username"))%bool = false →
  headers_get request "Upgrade" ≠ Some "websocket" →
  fetch request uuid now st
  = (Normal (mkResponse 426 (Some "Expected WebSocket upgrade") None), st).
Proof.
  intros H Hh. unfold fetch. rewrite H.
  by rewrite bool_decide_eq_false_2.
Qed.

Lemma guarded_send_attempt label text session st :
  try_catch (ws_send (Session.webSocket session) text)
            (λ error, console_error label) st
  = (Normal tt, emit (attempt (sockets st) label text session) st).
Proof. by apply guarded_send_run. Qed.

Lemma fetch_admit_general request uuid now st :
  (not_string (searchParams_get request "userId")
   || not_string (searchParams_get request "username"))%bool = false →
  headers_get request "Upgrade" = Some "websocket" →
  let session := admitted_session request st in
  let server := Session.webSocket session in
  let set := set_add session (sessions st) in
  let socks := <[server := Open]> (sockets st) in
  fetch request uuid now st
  = (Normal (mkResponse 101 None (Some (next_ref st))),
     mkRoom set (messageHistory st) (stored_messages st) (stored_alarm st)
            socks (<[server := session]> (listeners st)) (S (S server))
            (trace st ++
               [Accept server]
               ++ attempt socks history_label (HistoryText (messageHistory st)) session
               ++ (set ≫= attempt socks broadcast_label
                                 (MessageText (joined request uuid now)))
               ++ attempt socks presence_label (PresenceText (roster set)) session)).
Proof.
  intros Hid Hup. simpl. unfold fetch. rewrite Hid, Hup. simpl.
  unfold alloc, ws_accept, sendMessageHistory, sendPresence. step_M.
  rewrite (guarded_send_attempt _ _ (admitted_session request st)).
  rewrite broadcast_run.
  rewrite (guarded_send_attempt _ _ (admitted_session request st)).
  f_equal. apply room_eq; simpl; try reflexivity.
  rewrite <- !app_assoc. reflexivity.
Qed.

(** ** Reading the effects of a broadcast *)

Lemma attempts_app a b : attempts (a ++ b) = attempts a ++ attempts b.
Proof. apply bind_app. Qed.

Lemma delivered_app ws a b : delivered ws (a ++ b) = delivered ws a ++ delivered ws b.
Proof. apply bind_app. Qed.

Lemma delivered_send_same ws text tr :
  delivered ws (Send ws text :: tr) = text :: delivered ws tr.
Proof. unfold delivered. rewrite bind_cons. by rewrite Nat.eqb_refl. Qed.

Lemma delivered_send_other ws ws' text tr :
  ws' ≠ ws → delivered ws (Send ws' text :: tr) = delivered ws tr.
Proof.
  intros H%Nat.eqb_neq. unfold delivered. rewrite bind_cons. by rewrite H.
Qed.

Lemma delivered_accept ws ws' tr :
  delivered ws (Accept ws' :: tr) = delivered ws tr.
Proof. reflexivity. Qed.

Lemma attempts_attempt socks label text (l : list WebSocketSession) :
  attempts (l ≫= attempt socks label text)
  = (λ s, (Session.webSocket s, text)) <$> l.
Proof.
  induction l as [|s l IH]; [done|].
  rewrite bind_cons, attempts_app, IH, fmap_cons. f_equal.
  unfold attempt. by destruct (socks !! _) as [[]|].
Qed.

Lemma delivered_attempt_other socks label text ws (l : list WebSocketSession) :
  Forall (λ s, Session.webSocket s ≠ ws) l →
  delivered ws (l ≫= attempt socks label text) = [].
Proof.
  induction 1 as [|s l Hs _ IH]; [done|].
  rewrite bind_cons, delivered_app, IH, app_nil_r.
  unfold attempt. destruct (socks !! _) as [[]|]; simpl; try done.
  apply Nat.eqb_neq in Hs. by rewrite Hs.
Qed.

Lemma delivered_attempt_member socks label text (l : list WebSocketSession) :
  NoDup (Session.webSocket <$> l) →
  Forall (λ s, delivered (Session.webSocket s) (l ≫= attempt socks label text)
               = if is_open socks (Session.webSocket s) then [text] else []) l.
Proof.
  induction l as [|s l IH]; [constructor|].
  rewrite fmap_cons. intros [Hnotin Hnd]%NoDup_cons.
  assert (Hothers : Forall (λ s', Session.webSocket s' ≠ Session.webSocket s) l).
  { apply Forall_forall. intros s' Hin Heq. apply Hnotin.
    rewrite <- Heq. by apply list_elem_of_fmap_2. }
  constructor.
  - rewrite bind_cons, delivered_app, delivered_attempt_other, app_nil_r by done.
    unfold attempt, is_open. destruct (socks !! _) as [[]|]; simpl; try done.
    by rewrite Nat.eqb_refl.
  - specialize (IH Hnd). rewrite Forall_forall in IH, Hothers |- *.
    intros s' Hin. rewrite bind_cons, delivered_app, (IH _ Hin).
    replace (delivered (Session.webSocket s') (attempt socks label text s))
      with (@nil Text); [done|].
    unfold attempt. specialize (Hothers _ Hin).
    assert (Nat.eqb (Session.webSocket s) (Session.webSocket s') = false) as Hne
      by (apply Nat.eqb_neq; congruence).
    destruct (socks !! _) as [[]|]; simpl; by rewrite ?Hne.
Qed.

Lemma attempt_sent socks label text (l : list WebSocketSession) :
  Forall (λ s, if is_open socks (Session.webSocket s)
               then Send (Session.webSocket s) text ∈ l ≫= attempt socks label text
               else SendThrew (Session.webSocket s) text
                      ∈ l ≫= attempt socks label text) l.
Proof.
  apply Forall_forall. intros s Hin.
  assert (∀ e, e ∈ attempt socks label text s → e ∈ l ≫= attempt socks label text)
    as Hsub by (intros e He; apply list_elem_of_bind; eauto).
  unfold is_open, attempt in *.
  destruct (socks !! Session.webSocket s) as [[]|]; apply Hsub; set_solver.
Qed.

(** ** Well-formedness is an invariant *)

Lemma wf_constructor stored : wf (constructor stored).
Proof.
  unfold wf, constructor. destruct stored; simpl; repeat split; constructor.
Qed.

Lemma set_delete_sublist session set : sublist (set_delete session set) set.
Proof.
  unfold set_delete. induction set as [|s set IH]; simpl; [constructor|].
  destruct (negb _); by constructor.
Qed.

Lemma Forall_set_delete (P : WebSocketSession → Prop) session set :
  Forall P set → Forall P (set_delete session set).
Proof.
  unfold set_delete. induction 1 as [|s set Hs _ IH]; simpl; [constructor|].
  destruct (negb _); [by constructor|done].
Qed.

Lemma wf_delete st session socks' tr' :
  wf st →
  wf (mkRoom (set_delete session (sessions st)) (messageHistory st)
             (stored_messages st) (stored_alarm st) socks' (listeners st)
             (next_ref st) tr').
Proof.
  intros (Hws & Href & Hlt). unfold wf. simpl. repeat split.
  - eapply sublist_NoDup; [exact Hws|]. apply fmap_sublist, set_delete_sublist.
  - eapply sublist_NoDup; [exact Href|]. apply fmap_sublist, set_delete_sublist.
  - by apply Forall_set_delete.
Qed.

Lemma wf_same_sessions st st' :
  sessions st' = sessions st → next_ref st' = next_ref st → wf st → wf st'.
Proof. unfold wf. by intros -> ->. Qed.

Lemma wf_admit st session :
  wf st →
  Session.webSocket session = S (next_ref st) →
  Session.ref session = S (S (next_ref st)) →
  ∀ hist sto al socks lis tr,
  wf (mkRoom (sessions st ++ [session]) hist sto al socks lis
             (S (S (S (next_ref st)))) tr).
Proof.
  intros (Hws & Href & Hlt) Hs Hr *. unfold wf. simpl.
  rewrite !fmap_app, !NoDup_app. simpl. rewrite Forall_app.
  rewrite Forall_forall in Hlt.
  repeat split; try done.
  - intros x [s [-> Hin]]%list_elem_of_fmap Hx%list_elem_of_singleton.
    apply Hlt in Hin. lia.
  - apply NoDup_singleton.
  - intros x [s [-> Hin]]%list_elem_of_fmap Hx%list_elem_of_singleton.
    apply Hlt in Hin. lia.
  - apply NoDup_singleton.
  - apply Forall_forall. intros s Hin. apply Hlt in Hin. lia.
  - constructor; [lia|constructor].
Qed.

Lemma on_socket_run ws listener st :
  on_socket ws listener st
  = match listeners st !! ws with
    | Some session => listener session st
    | None => (Normal tt, st)
    end.
Proof. unfold on_socket. step_M. by destruct (listeners st !! ws). Qed.

Lemma wf_step e st : wf st → wf (step e st).
Proof.
  intros Hwf. destruct e as [request uuid now|ws data uuid now|ws uuid now
                             |ws uuid now|now1 now2|ws]; unfold step.
  - destruct (not_string (searchParams_get request "userId")
              || not_string (searchParams_get request "username"))%bool eqn:Hid.
    { by rewrite fetch_reject_identity. }
    destruct (decide (headers_get request "Upgrade" = Some "websocket")) as [Hup|Hup].
    2: { by rewrite fetch_reject_upgrade. }
    rewrite fetch_admit_general by done. simpl.
    rewrite set_add_fresh.
    + by apply wf_admit.
    + destruct Hwf as (_ & _ & Hlt). eapply Forall_impl; [exact Hlt|].
      simpl. intros; lia.
  - rewrite on_socket_run. destruct (listeners st !! ws) as [session|]; [|done].
    destruct (accepted data) as [content|] eqn:Hacc.
    + rewrite (handleMessage_accepted_run _ _ _ _ _ _ Hacc). simpl.
      by eapply wf_same_sessions.
    + rewrite (handleMessage_discarded_run _ _ _ _ _ Hacc). simpl.
      by eapply wf_same_sessions.
  - rewrite on_socket_run. destruct (listeners st !! ws) as [session|]; [|done].
    rewrite handleClose_run. simpl. by apply wf_delete.
  - rewrite on_socket_run. destruct (listeners st !! ws) as [session|]; [|done].
    rewrite handleClose_run. simpl. by apply wf_delete.
  - rewrite alarm_run. simpl. by eapply wf_same_sessions.
  - destruct (sockets st !! ws); [|done]. by eapply wf_same_sessions.
Qed.

Lemma run_invariant (I : ChatRoom → Prop) :
  (∀ e st, I st → I (step e st)) →
  ∀ events st, I st → I (run events st).
Proof.
  intros Hstep events. unfold run.
  induction events as [|e events IH]; intros st Hst; simpl; [done|].
  apply IH, Hstep, Hst.
Qed.

Lemma wf_run events stored : wf (run events (constructor stored)).
Proof. apply run_invariant; [apply wf_step|apply wf_constructor]. Qed.

(** ** Predicates on messages that every step preserves *)

Lemma Forall_attempt_messages (P : ChatMessage → Prop) socks label text
    (l : list WebSocketSession) :
  Forall P (text_messages text) →
  Forall P ((l ≫= attempt socks label text) ≫= effect_messages).
Proof.
  intros H. induction l as [|s l IH]; [constructor|].
  rewrite bind_cons, bind_app, Forall_app. split; [|done].
  unfold attempt. destruct (socks !! _) as [[]|]; simpl;
    rewrite ?app_nil_r; done.
Qed.

Lemma Forall_attempt1_messages (P : ChatMessage → Prop) socks label text session :
  Forall P (text_messages text) →
  Forall P (attempt socks label text session ≫= effect_messages).
Proof.
  intros H. unfold attempt. destruct (socks !! _) as [[]|]; simpl;
    rewrite ?app_nil_r; done.
Qed.

Lemma Forall_List_filter {A} (P : A → Prop) f (l : list A) :
  Forall P l → Forall P (List.filter f l).
Proof.
  induction 1 as [|x l Hx _ IH]; simpl; [constructor|].
  destruct (f x); [by constructor|done].
Qed.

Lemma accepted_truthy data content :
  accepted data = Some content → truthy (Some content) = true.
Proof.
  unfold accepted. destruct data as [[| | | | |members]|]; try discriminate.
  destruct (strict_equals_string _ _); [|discriminate].
  destruct (truthy _) eqn:H; [|discriminate]. by intros <-.
Qed.

Section Preservation.
Variable P : ChatMessage → Prop.

Hypothesis P_message : ∀ uuid userId username content now,
  truthy (Some content) = true →
  P (Message.mk uuid message userId username (Some content) now).

Lemma kept_step e st : Forall P (kept st) → Forall P (kept (step e st)).
Proof.
  unfold kept. rewrite Forall_app. intros [Hh Hs].
  destruct e as [request uuid now|ws data uuid now|ws uuid now
                 |ws uuid now|now1 now2|ws]; unfold step.
  - destruct (not_string (searchParams_get request "userId")
              || not_string (searchParams_get request "username"))%bool eqn:Hid.
    { rewrite fetch_reject_identity by done. by apply Forall_app. }
    destruct (decide (headers_get request "Upgrade" = Some "websocket"))
      as [Hup|Hup].
    2: { rewrite fetch_reject_upgrade by done. by apply Forall_app. }
    rewrite fetch_admit_general by done. by apply Forall_app.
  - rewrite on_socket_run.
    destruct (listeners st !! ws) as [session|]; [|by apply Forall_app].
    destruct (accepted data) as [content|] eqn:Hacc.
    + rewrite (handleMessage_accepted_run _ _ _ _ _ _ Hacc). simpl.
      assert (Forall P (slice_last 100
                (messageHistory st ++ [minted session content uuid now]))).
      { apply Forall_drop, Forall_app. split; [done|].
        repeat constructor. eapply P_message, accepted_truthy, Hacc. }
      by apply Forall_app.
    + rewrite (handleMessage_discarded_run _ _ _ _ _ Hacc). by apply Forall_app.
  - rewrite on_socket_run.
    destruct (listeners st !! ws) as [session|]; [|by apply Forall_app].
    rewrite handleClose_run. by apply Forall_app.
  - rewrite on_socket_run.
    destruct (listeners st !! ws) as [session|]; [|by apply Forall_app].
    rewrite handleClose_run. by apply Forall_app.
  - rewrite alarm_run. simpl.
    apply Forall_app; split; by apply Forall_List_filter.
  - destruct (sockets st !! ws); by apply Forall_app.
Qed.

Hypothesis P_join : ∀ uuid userId username now,
  P (Message.mk uuid join userId username None now).

Hypothesis P_leave : ∀ uuid userId username now,
  P (Message.mk uuid leave userId username None now).

Lemma room_messages_step e st :
  Forall P (room_messages st) → Forall P (room_messages (step e st)).
Proof.
  unfold room_messages. rewrite Forall_app. intros [Hk Ht].
  apply Forall_app. split; [by apply kept_step|].
  apply Forall_app in Hk as [Hh Hs].
  destruct e as [request uuid now|ws data uuid now|ws uuid now
                 |ws uuid now|now1 now2|ws]; unfold step.
  - destruct (not_string (searchParams_get request "userId")
              || not_string (searchParams_get request "username"))%bool eqn:Hid.
    { by rewrite fetch_reject_identity. }
    destruct (decide (headers_get request "Upgrade" = Some "websocket"))
      as [Hup|Hup].
    2: { by rewrite fetch_reject_upgrade. }
    rewrite fetch_admit_general by done. simpl.
    rewrite bind_app, bind_cons, !bind_app, !Forall_app.
    repeat split; try done.
    + by apply Forall_attempt1_messages.
    + apply Forall_attempt_messages. repeat constructor. apply P_join.
    + apply Forall_attempt1_messages. constructor.
  - rewrite on_socket_run.
    destruct (listeners st !! ws) as [session|]; [|done].
    destruct (accepted data) as [content|] eqn:Hacc.
    + rewrite (handleMessage_accepted_run _ _ _ _ _ _ Hacc). simpl.
      assert (P (minted session content uuid now)) as Hm
        by (eapply P_message, accepted_truthy, Hacc).
      rewrite bind_app, bind_cons, !Forall_app. repeat split; try done.
      * apply Forall_drop, Forall_app. split; [done|]. by repeat constructor.
      * apply Forall_attempt_messages. by repeat constructor.
    + rewrite (handleMessage_discarded_run _ _ _ _ _ Hacc). simpl.
      rewrite bind_app, Forall_app. split; [done|].
      destruct (throws data); simpl; constructor.
  - rewrite on_socket_run.
    destruct (listeners st !! ws) as [session|]; [|done].
    rewrite handleClose_run. simpl. unfold close_effects.
    rewrite !bind_app, !Forall_app. repeat split; try done.
    + destruct (not_quit session); [|constructor].
      apply Forall_attempt_messages. repeat constructor. apply P_leave.
    + destruct (sockets st !! _) as [[]|]; simpl; constructor.
  - rewrite on_socket_run.
    destruct (listeners st !! ws) as [session|]; [|done].
    rewrite handleClose_run. simpl. unfold close_effects.
    rewrite !bind_app, !Forall_app. repeat split; try done.
    + destruct (not_quit session); [|constructor].
      apply Forall_attempt_messages. repeat constructor. apply P_leave.
    + destruct (sockets st !! _) as [[]|]; simpl; constructor.
  - rewrite alarm_run. simpl.
    rewrite bind_app, Forall_app. split; [done|]. simpl.
    rewrite app_nil_r. by apply Forall_List_filter.
  - by destruct (sockets st !! ws).
Qed.
End Preservation.

(** ** Frames in sequence *)

Lemma slice_last_slice_last {A} n (l k : list A) :
  slice_last n (slice_last n l ++ k) = slice_last n (l ++ k).
Proof.
  unfold slice_last. rewrite !length_app, length_drop.
  destruct (Nat.le_gt_cases (length l) n) as [Hle|Hgt].
  - replace (length l - n)%nat with 0%nat by lia.
    by rewrite Nat.sub_0_r.
  - replace (length l - (length l - n) + length k - n)%nat
      with (length k) by lia.
    replace (length l + length k - n)%nat
      with ((length l - n) + length k)%nat by lia.
    rewrite <- drop_drop. f_equal. rewrite drop_app_le by lia. done.
Qed.

Lemma receive_history frames st :
  (length (messageHistory st) ≤ 100)%nat →
  messageHistory (receive frames st)
  = slice_last 100 (messageHistory st ++ (frames ≫= minted_of)).
Proof.
  unfold receive. revert st.
  induction frames as [|f frames IH]; intros st Hlen.
  - simpl. rewrite app_nil_r. by rewrite slice_last_short.
  - rewrite bind_cons. cbn [fold_left].
    destruct (accepted (frame_data f)) as [content|] eqn:Hacc.
    + assert (minted_of f = [minted (frame_session f) content (frame_uuid f) (frame_now f)]) as ->
        by (unfold minted_of; by rewrite Hacc).
      rewrite (handleMessage_accepted_run _ _ _ _ _ _ Hacc). cbn [snd].
      rewrite IH by (cbn [messageHistory]; rewrite slice_last_length; lia).
      cbn [messageHistory].
      by rewrite slice_last_slice_last, <- app_assoc.
    + assert (minted_of f = []) as -> by (unfold minted_of; by rewrite Hacc).
      rewrite (handleMessage_discarded_run _ _ _ _ _ Hacc). cbn [snd].
      by rewrite IH.
Qed.

Lemma minted_of_length frames :
  Forall (λ f, is_Some (accepted (frame_data f))) frames →
  length (frames ≫= minted_of) = length frames.
Proof.
  induction 1 as [|f frames [c Hc] _ IH]; [done|].
  rewrite bind_cons, length_app, IH. unfold minted_of. by rewrite Hc.
Qed.

Lemma last_slice_last_snoc {A} n (l : list A) x :
  last (slice_last (S n) (l ++ [x])) = Some x.
Proof.
  unfold slice_last. rewrite length_app. simpl.
  rewrite drop_app_le by lia. apply last_snoc.
Qed.

Lemma refused_not_accepted data : refused data → accepted data = None.
Proof.
  intros [->|(parsed & -> & H)]; [done|].
  destruct parsed as [| | | | |members]; try done. simpl in *.
  destruct (strict_equals_string _ _) eqn:Hty; [|done].
  destruct H as [H|(content & [= <-] & ->)]; [|done].
  destruct (own_property "type" members) as [[]|]; try done.
  simpl in Hty. apply String.eqb_eq in Hty. by subst.
Qed.

(** ** Facts used by the claims *)

Lemma fetch_history request uuid now st :
  messageHistory (snd (fetch request uuid now st)) = messageHistory st.
Proof.
  destruct (not_string (searchParams_get request "userId")
            || not_string (searchParams_get request "username"))%bool eqn:Hid.
  { by rewrite fetch_reject_identity. }
  destruct (decide (headers_get request "Upgrade" = Some "websocket"))
    as [Hup|Hup].
  - by rewrite fetch_admit_general.
  - by rewrite fetch_reject_upgrade.
Qed.

Lemma on_socket_close_history ws uuid now st :
  messageHistory
    (snd (on_socket ws (λ session, handleClose session uuid now) st))
  = messageHistory st.
Proof.
  rewrite on_socket_run. destruct (listeners st !! ws); [|done].
  by rewrite handleClose_run.
Qed.

Lemma room_messages_constructor stored :
  Forall (λ m, m ∈ default [] stored) (room_messages (constructor stored)).
Proof.
  unfold room_messages, kept, constructor.
  destruct stored as [messages|]; simpl; rewrite ?app_nil_r; [|constructor].
  apply Forall_app. split; by apply Forall_forall.
Qed.

Lemma content_iff_message_without m :
  Message.content m = None → Message.type m ≠ message → content_iff_message m.
Proof.
  intros Hc Ht. unfold content_iff_message. rewrite Hc.
  split; [by intros [? [=]]|done].
Qed.

Lemma content_iff_message_with m content :
  Message.content m = Some content → Message.type m = message →
  content_iff_message m.
Proof.
  intros Hc Ht. unfold content_iff_message. rewrite Hc, Ht.
  split; [done|by eexists].
Qed.

Lemma set_delete_idempotent session set :
  set_delete session (set_delete session set) = set_delete session set.
Proof.
  unfold set_delete. induction set as [|s set IH]; [done|]. simpl.
  destruct (negb (same_session session s)) eqn:H; simpl; rewrite ?H, IH; done.
Qed.

Lemma set_delete_spares session set :
  Forall (λ s, Session.ref s ≠ Session.ref session) (set_delete session set).
Proof.
  unfold set_delete. induction set as [|s set IH]; simpl; [constructor|].
  destruct (negb (same_session session s)) eqn:H; [|done].
  constructor; [|done]. unfold same_session in H.
  apply negb_true_iff, Nat.eqb_neq in H. congruence.
Qed.

Lemma set_delete_other_sockets session set :
  NoDup (Session.webSocket <$> set) → session ∈ set →
  Forall (λ s, Session.webSocket s ≠ Session.webSocket session)
         (set_delete session set).
Proof.
  intros Hnd Hin. apply Forall_forall. intros s Hs Heq.
  assert (s ∈ set) as Hs'.
  { apply list_elem_of_In. apply list_elem_of_In in Hs.
    unfold set_delete in Hs. by apply filter_In in Hs as [? _]. }
  assert (s = session) as ->.
  { apply list_elem_of_lookup in Hs' as [i Hi], Hin as [j Hj].
    assert (i = j) as ->.
    { eapply NoDup_lookup; [exact Hnd| |];
        rewrite list_lookup_fmap; [by rewrite Hi|by rewrite Hj, Heq]. }
    congruence. }
  pose proof (set_delete_spares session set) as Hsp.
  rewrite Forall_forall in Hsp. by apply (Hsp session Hs).
Qed.

(** * The claims *)

(** C1. On a valid admission (both identity parameters non-empty, the
    Upgrade header equal to websocket) into a well-formed room, [fetch]
    answers 101, adds the new session to the live set, and performs, in
    this order: one send of the whole current history to the new socket;
    one send of the join message, which carries the new identity, to every
    live session in set order, the new one last; one send of the presence
    roster to the new socket. The new socket is handed exactly the history,
    then the join, then the presence; every other live socket that is open
    is handed exactly the join, and a closed one nothing. *)
Theorem fetch_history_then_join_then_presence
    request uuid now st userId username :
  searchParams_get request "userId" = Some userId → userId ≠ "" →
  searchParams_get request "username" = Some username → username ≠ "" →
  headers_get request "Upgrade" = Some "websocket" →
  wf st →
  let server := S (next_ref st) in
  let session := Session.mk (S server) server userId username None in
  let joined := Message.mk uuid join userId username None now in
  let history := HistoryText (messageHistory st) in
  let presence := PresenceText (roster (sessions st ++ [session])) in
  let new := admission_effects st session joined in
  let st' := snd (fetch request uuid now st) in
  fst (fetch request uuid now st)
    = Normal (mkResponse 101 None (Some (next_ref st)))
  ∧ sessions st' = sessions st ++ [session]
  ∧ trace st' = trace st ++ new
  ∧ attempts new
    = (server, history)
      :: ((λ s, (Session.webSocket s, MessageText joined))
            <$> (sessions st ++ [session]))
      ++ [(server, presence)]
  ∧ delivered server new = [history; MessageText joined; presence]
  ∧ Forall (λ s, delivered (Session.webSocket s) new
                 = if is_open (sockets st) (Session.webSocket s)
                   then [MessageText joined] else [])
           (sessions st).
Proof.
  intros Hu Hu' Hn Hn' Hup Hwf server session joined history presence new st'.
  subst st'. rewrite (fetch_admit_run _ _ _ _ _ _ Hu Hu' Hn Hn' Hup Hwf).
  cbn [fst snd sessions trace].
  subst new history presence joined session server.
  destruct Hwf as (Hws & _ & Hlt).
  assert (Forall (λ s, Session.webSocket s ≠ S (next_ref st)) (sessions st))
    as Hfresh by (eapply Forall_impl; [exact Hlt|]; simpl; intros; lia).
  repeat split.
  - unfold admission_effects.
    rewrite !attempts_app, attempts_attempt, fmap_app. simpl.
    by rewrite <- app_assoc.
  - unfold admission_effects. cbn [Session.webSocket app].
    rewrite delivered_accept, delivered_send_same, delivered_app,
      delivered_attempt_other, !delivered_send_same by done.
    reflexivity.
  - pose proof (delivered_attempt_member (sockets st) broadcast_label
                  (MessageText (Message.mk uuid join userId username None now))
                  _ Hws) as Hmem.
    rewrite Forall_forall in Hmem, Hfresh |- *. intros s Hin.
    unfold admission_effects. cbn [Session.webSocket app].
    assert (S (next_ref st) ≠ Session.webSocket s) as Hne
      by (intros Heq; by apply (Hfresh s Hin)).
    rewrite delivered_accept, delivered_send_other, delivered_app,
      (Hmem s Hin), !delivered_send_other by done.
    by rewrite app_nil_r.
Qed.

Lemma fetch_history_then_join_then_presence_witness :
  delivered 4 (admission_effects alice_room bob
                 (Message.mk "join-b" join "bob-1" "Bob" None 2000))
  = [HistoryText [];
     MessageText (Message.mk "join-b" join "bob-1" "Bob" None 2000);
     PresenceText [("alice-1", "Alice"); ("bob-1", "Bob")]].
Proof.
  apply (fetch_history_then_join_then_presence
           bob_request "join-b" 2000 alice_room "bob-1" "Bob");
    [reflexivity | discriminate | reflexivity | discriminate | reflexivity
    | apply wf_run].
Defined.

(** C2. Handling a frame that passes the guard appends the minted message
    and leaves in memory, and in storage, the last 100 entries of the
    extended history, in insertion order: at most 100 entries, the oldest
    dropped. Over any sequence of frames received by a room whose history
    is within the cap, the history is the last 100 of the old entries
    followed by the accepted messages; 101 accepted frames received by a
    room with an empty history leave exactly 100, all but the first. *)
Theorem handleMessage_keeps_most_recent_100
    session data uuid now st content :
  accepted data = Some content →
  let st' := snd (handleMessage session data uuid now st) in
  let m := minted session content uuid now in
  messageHistory st' = slice_last 100 (messageHistory st ++ [m])
  ∧ (length (messageHistory st') ≤ 100)%nat
  ∧ (∃ evicted, messageHistory st ++ [m] = evicted ++ messageHistory st')
  ∧ stored_messages st' = Some (messageHistory st')
  ∧ (∀ frames st0,
       (length (messageHistory st0) ≤ 100)%nat →
       messageHistory (receive frames st0)
       = slice_last 100 (messageHistory st0 ++ (frames ≫= minted_of)))
  ∧ (∀ frames st0,
       messageHistory st0 = [] → length frames = 101%nat →
       Forall (λ f, is_Some (accepted (frame_data f))) frames →
       length (frames ≫= minted_of) = 101%nat
       ∧ length (messageHistory (receive frames st0)) = 100%nat
       ∧ messageHistory (receive frames st0) = drop 1 (frames ≫= minted_of)).
Proof.
  intros Hacc st' m. subst st' m.
  rewrite (handleMessage_accepted_run _ _ _ _ _ _ Hacc).
  cbn [snd messageHistory stored_messages].
  split; [reflexivity|]. split; [rewrite slice_last_length; lia|].
  split; [eexists; unfold slice_last; symmetry; apply take_drop|].
  split; [reflexivity|]. split; [apply receive_history|].
  intros frames st0 Hnil Hlen Hall.
  rewrite receive_history by (rewrite Hnil; simpl; lia).
  rewrite slice_last_length, Hnil. cbn [app].
  rewrite minted_of_length, Hlen by done.
  repeat split. unfold slice_last.
  by rewrite minted_of_length, Hlen.
Qed.

Lemma handleMessage_keeps_most_recent_100_witness :
  length (burst ≫= minted_of) = 101%nat
  ∧ length (messageHistory (receive burst alice_room)) = 100%nat
  ∧ messageHistory (receive burst alice_room) = drop 1 (burst ≫= minted_of).
Proof.
  apply (handleMessage_keeps_most_recent_100
           alice (text_frame "hi") "id-1" 5000 alice_room (JString "hi"));
    [reflexivity | reflexivity | reflexivity |].
  apply Forall_fmap, Forall_forall. intros n _. by eexists.
Defined.

(** C3, as the code has it: a socket that raises an error and then closes
    runs [handleClose] twice for its session, and the second run broadcasts
    a second leave message. In a room holding Alice and Bob, after both
    events of Alice's socket, Bob's socket has been handed two leave
    messages for Alice. *)
Theorem error_then_close_announces_leave_twice :
  let st' := run [SocketError 1 "leave-1" 3000; SocketClose 1 "leave-2" 4000]
                 two_room in
  sessions two_room = [alice; bob]
  ∧ sessions st' = [bob]
  ∧ delivered 4 (drop (length (trace two_room)) (trace st'))
    = [MessageText (departed alice "leave-1" 3000);
       MessageText (departed alice "leave-2" 4000)]
  ∧ delivered 1 (drop (length (trace two_room)) (trace st')) = [].
Proof. vm_compute. repeat split. Qed.

(** C4, as the code has it: a frame whose content is [true] is not of the
    shape [{ type: "message", content: string }], so the claim has it
    discarded; yet handling it builds a [ChatMessage] whose content, declared
    a string, is that boolean, appends it to the history, writes it to
    storage and broadcasts it. *)
Lemma handleMessage_accepts_content_that_is_no_string :
  let st' := snd (handleMessage alice flag_frame "id-1" 5000 alice_room) in
  let m := Message.mk "id-1" message "alice-1" "Alice" (Some (JBool true)) 5000 in
  ¬ message_shaped flag_frame
  ∧ messageHistory alice_room = []
  ∧ messageHistory st' = [m]
  ∧ drop (length (trace alice_room)) (trace st')
    = [StoragePut [m]; Send 1 (MessageText m)].
Proof.
  split; [|by vm_compute].
  intros (members & s & Hdata & _ & Hcontent).
  injection Hdata as <-. discriminate Hcontent.
Qed.

(** Handling a refused frame returns normally and changes nothing in the
    room but the trace, which gains at most one console line: no history
    entry, no storage write, no [send] on any socket. *)
Theorem handleMessage_discards_refused_frames session data uuid now st :
  refused data →
  let st' := snd (handleMessage session data uuid now st) in
  let log := if throws data then [ConsoleError message_label] else [] in
  handleMessage session data uuid now st = (Normal tt, emit log st)
  ∧ messageHistory st' = messageHistory st
  ∧ stored_messages st' = stored_messages st
  ∧ sessions st' = sessions st
  ∧ trace st' = trace st ++ log
  ∧ attempts log = []
  ∧ log ≫= effect_messages = [].
Proof.
  intros H%refused_not_accepted st' log. subst st' log.
  rewrite (handleMessage_discarded_run _ _ _ _ _ H).
  repeat split; by destruct (throws data).
Qed.

Lemma handleMessage_discards_refused_frames_witness :
  messageHistory
    (snd (handleMessage alice (Some (JObject [("type", JString "message");
                                             ("content", JString "")]))
                        "id-1" 5000 alice_room))
  = messageHistory alice_room.
Proof.
  apply (handleMessage_discards_refused_frames alice
           (Some (JObject [("type", JString "message"); ("content", JString "")]))
           "id-1" 5000 alice_room).
  right. eexists. split; [reflexivity|]. right. eexists.
  split; reflexivity.
Defined.

(** C5. A firing of the alarm returns normally in every room, live
    sessions or not. With [now1] the clock when the cutoff is computed and
    [now2] the clock when the next firing is set: the history becomes its
    entries whose timestamp is greater than [now1] minus 24 hours, in
    order, so no retained entry is that old; that filtered history is
    written to storage; and the alarm slot is set exactly once, to [now2]
    plus one hour, a time after [now2]. Nothing else is sent or stored. *)
Theorem alarm_prunes_persists_and_rearms now1 now2 st :
  let st' := snd (alarm now1 now2 st) in
  fst (alarm now1 now2 st) = Normal tt
  ∧ messageHistory st'
    = List.filter (λ msg, Z.ltb (now1 - 24 * 60 * 60 * 1000) (Message.timestamp msg))
                  (messageHistory st)
  ∧ Forall (λ msg, now1 - 24 * 60 * 60 * 1000 < Message.timestamp msg)
           (messageHistory st')
  ∧ stored_messages st' = Some (messageHistory st')
  ∧ stored_alarm st' = Some (now2 + 60 * 60 * 1000)
  ∧ now2 < now2 + 60 * 60 * 1000
  ∧ trace st' = trace st ++ [StoragePut (messageHistory st');
                            StorageSetAlarm (now2 + 60 * 60 * 1000)]
  ∧ sessions st' = sessions st.
Proof.
  intros st'. subst st'. rewrite alarm_run. cbn [fst snd messageHistory
    stored_messages stored_alarm trace sessions].
  repeat split; try reflexivity; [|lia].
  apply Forall_forall. intros msg Hin.
  apply list_elem_of_In, filter_In in Hin as [_ Hlt].
  apply Z.ltb_lt in Hlt. exact Hlt.
Qed.

Lemma alarm_prunes_persists_and_rearms_witness :
  messageHistory (snd (alarm 100000000 100000005 aged_room))
  = [minted alice (JString "new") "msg-2" 90000000]
  ∧ stored_alarm (snd (alarm 100000000 100000005 aged_room)) = Some 103600005.
Proof.
  destruct (alarm_prunes_persists_and_rearms 100000000 100000005 aged_room)
    as (_ & Hhistory & _ & _ & Halarm & _).
  split; [rewrite Hhistory; reflexivity | exact Halarm].
Defined.

(** C6. [broadcast] returns normally in every room. It builds one text
    from the message and calls [send] with that same text once for every
    live session, in set order, whatever the earlier calls did: an open
    socket is handed the text, on any other the call throws, which is
    logged and skipped. Nothing else in the room changes. When the live
    sockets are distinct, each open one is handed the text exactly
    once. *)
Theorem broadcast_reaches_every_live_session m st :
  let text := MessageText m in
  let new := sessions st ≫= attempt (sockets st) broadcast_label text in
  broadcast m st = (Normal tt, emit new st)
  ∧ attempts new = (λ s, (Session.webSocket s, text)) <$> sessions st
  ∧ Forall (λ s, if is_open (sockets st) (Session.webSocket s)
                 then Send (Session.webSocket s) text ∈ new
                 else SendThrew (Session.webSocket s) text ∈ new)
           (sessions st)
  ∧ (NoDup (Session.webSocket <$> sessions st) →
     Forall (λ s, delivered (Session.webSocket s) new
                  = if is_open (sockets st) (Session.webSocket s)
                    then [text] else [])
            (sessions st)).
Proof.
  simpl. repeat split.
  - apply broadcast_run.
  - apply attempts_attempt.
  - apply attempt_sent.
  - apply delivered_attempt_member.
Qed.

Lemma broadcast_reaches_every_live_session_witness :
  let m := minted bob (JString "hi") "msg-2" 2500 in
  broadcast m cut_room
  = (Normal tt,
     emit [SendThrew 1 (MessageText m); ConsoleError broadcast_label;
           Send 4 (MessageText m)] cut_room).
Proof.
  exact (proj1 (broadcast_reaches_every_live_session
                  (minted bob (JString "hi") "msg-2" 2500) cut_room)).
Defined.

(** C7. Two frames whose members agree everywhere but under the keys
    [userId] and [username] are handled alike: same result, same room
    afterwards. When such a frame passes the guard, the message appended to
    the history and broadcast carries the [userId] and [username] of the
    session the listener was wired for, whatever the frame says. *)
Theorem handleMessage_identity_is_the_sessions
    session members1 members2 uuid now st :
  (∀ key, key ≠ "userId" → key ≠ "username" →
          own_property key members1 = own_property key members2) →
  handleMessage session (Some (JObject members1)) uuid now st
  = handleMessage session (Some (JObject members2)) uuid now st
  ∧ ∀ content, accepted (Some (JObject members1)) = Some content →
      let st' := snd (handleMessage session (Some (JObject members2)) uuid now st) in
      ∃ m, last (messageHistory st') = Some m
           ∧ Message.userId m = Session.userId session
           ∧ Message.username m = Session.username session
           ∧ Message.type m = message
           ∧ Message.content m = Some content
           ∧ trace st'
             = trace st ++ StoragePut (messageHistory st')
                 :: (sessions st ≫= attempt (sockets st) broadcast_label
                                            (MessageText m)).
Proof.
  intros Hagree.
  assert (accepted (Some (JObject members1)) = accepted (Some (JObject members2)))
    as Hsame.
  { unfold accepted. by rewrite !(Hagree "type"), !(Hagree "content"). }
  split.
  - destruct (accepted (Some (JObject members2))) as [content|] eqn:Hacc.
    + rewrite (handleMessage_accepted_run _ _ _ _ _ _ Hsame).
      by rewrite (handleMessage_accepted_run _ _ _ _ _ _ Hacc).
    + rewrite (handleMessage_discarded_run _ _ _ _ _ Hsame).
      by rewrite (handleMessage_discarded_run _ _ _ _ _ Hacc).
  - intros content Hacc. rewrite Hsame in Hacc.
    rewrite (handleMessage_accepted_run _ _ _ _ _ _ Hacc).
    cbn [snd messageHistory trace].
    exists (minted session content uuid now). repeat split.
    apply last_slice_last_snoc.
Qed.

Lemma handleMessage_identity_is_the_sessions_witness :
  handleMessage alice (forged_frame "hi" "bob-1" "Bob") "id-1" 5000 two_room
  = handleMessage alice (text_frame "hi") "id-1" 5000 two_room.
Proof.
  apply (handleMessage_identity_is_the_sessions alice
           [("type", JString "message"); ("content", JString "hi");
            ("userId", JString "bob-1"); ("username", JString "Bob")]
           [("type", JString "message"); ("content", JString "hi")]
           "id-1" 5000 two_room).
  intros key Hu Hn. unfold own_property. cbn -[String.eqb].
  assert (("username" =? key) = false) as -> by (apply String.eqb_neq; congruence).
  assert (("userId" =? key) = false) as -> by (apply String.eqb_neq; congruence).
  reflexivity.
Defined.

(** C8. When [userId] or [username] is missing or empty, [fetch] returns
    the 400 response (InvalidRequest), whatever the headers say; when both
    are present and the Upgrade header is not [websocket], it returns the
    426 response (UnsupportedProtocol). In both cases it returns normally,
    hands out no socket, and leaves the room as it was: same sessions, same
    history, same storage, same sockets, same trace. *)
Theorem fetch_refuses_without_effect request uuid now st :
  let missing :=
    (not_string (searchParams_get request "userId")
     || not_string (searchParams_get request "username"))%bool in
  (missing = true →
     ∃ r, fetch request uuid now st = (Normal r, st)
          ∧ r = mkResponse 400 (Some "Missing userId or username") None
          ∧ admission_error r = Some InvalidRequest)
  ∧ (missing = false → headers_get request "Upgrade" ≠ Some "websocket" →
     ∃ r, fetch request uuid now st = (Normal r, st)
          ∧ r = mkResponse 426 (Some "Expected WebSocket upgrade") None
          ∧ admission_error r = Some UnsupportedProtocol).
Proof.
  split.
  - intros H. eexists. split; [by apply fetch_reject_identity|done].
  - intros H Hup. eexists. split; [by apply fetch_reject_upgrade|done].
Qed.

Lemma fetch_refuses_without_effect_witness :
  (∃ r, fetch nameless_request "id-1" 5000 two_room = (Normal r, two_room)
        ∧ r = mkResponse 400 (Some "Missing userId or username") None
        ∧ admission_error r = Some InvalidRequest)
  ∧ (∃ r, fetch plain_request "id-1" 5000 two_room = (Normal r, two_room)
          ∧ r = mkResponse 426 (Some "Expected WebSocket upgrade") None
          ∧ admission_error r = Some UnsupportedProtocol).
Proof.
  split.
  - apply (fetch_refuses_without_effect nameless_request "id-1" 5000 two_room).
    reflexivity.
  - apply (fetch_refuses_without_effect plain_request "id-1" 5000 two_room);
      [reflexivity | discriminate].
Defined.

(** C9. In every room reached from the constructor by any events, each
    chat message in the history, in storage or in a text or storage write
    of the trace either came out of storage at construction or satisfies
    the invariant: it has a content exactly when its type is message. In
    particular the three messages the room builds do: a join and a leave
    carry no content, a message built from an accepted frame carries
    one. *)
Theorem created_messages_have_content_iff_message stored events :
  Forall (λ m, m ∈ default [] stored ∨ content_iff_message m)
         (room_messages (run events (constructor stored)))
  ∧ (∀ request uuid now, content_iff_message (joined request uuid now))
  ∧ (∀ session uuid now, content_iff_message (departed session uuid now))
  ∧ (∀ session content uuid now,
       content_iff_message (minted session content uuid now)).
Proof.
  split; [|split; [|split]; intros].
  - apply (run_invariant
             (λ st, Forall (λ m, m ∈ default [] stored ∨ content_iff_message m)
                           (room_messages st))).
    + intros e st. apply room_messages_step; intros; right.
      * by eapply content_iff_message_with.
      * by apply content_iff_message_without.
      * by apply content_iff_message_without.
    + eapply Forall_impl; [apply room_messages_constructor|]. by left.
  - by apply content_iff_message_without.
  - by apply content_iff_message_without.
  - by eapply content_iff_message_with.
Qed.

Lemma created_messages_have_content_iff_message_witness :
  Forall (λ m, m ∈ [] ∨ content_iff_message m)
         (room_messages (run scenario (constructor None))).
Proof.
  exact (proj1 (created_messages_have_content_iff_message None scenario)).
Defined.

(** C10. In every room reached from the constructor by any events, each
    entry of the history, in memory and in storage, either came out of
    storage at construction or has type message. Admitting a session and
    closing a socket, the two events that build join and leave messages,
    leave the history in memory as it was. *)
Theorem history_holds_only_messages stored events :
  Forall (λ m, m ∈ default [] stored ∨ Message.type m = message)
         (kept (run events (constructor stored)))
  ∧ (∀ st request uuid now,
       messageHistory (step (Fetch request uuid now) st) = messageHistory st)
  ∧ (∀ st ws uuid now,
       messageHistory (step (SocketClose ws uuid now) st) = messageHistory st
       ∧ messageHistory (step (SocketError ws uuid now) st) = messageHistory st).
Proof.
  split; [|split].
  - apply (run_invariant
             (λ st, Forall (λ m, m ∈ default [] stored ∨ Message.type m = message)
                           (kept st))).
    + intros e st. apply kept_step. intros. by right.
    + pose proof (room_messages_constructor stored) as H.
      unfold room_messages in H. apply Forall_app in H as [H _].
      eapply Forall_impl; [exact H|]. by left.
  - intros. apply fetch_history.
  - intros. split; apply on_socket_close_history.
Qed.

Lemma history_holds_only_messages_witness :
  Forall (λ m, m ∈ [] ∨ Message.type m = message)
         (kept (run scenario (constructor None))).
Proof.
  exact (proj1 (history_holds_only_messages None scenario)).
Defined.

(** * Further properties *)

(** ** Removal *)

(** Removal from the live set is idempotent, and a leave message is never
    offered to the socket of the session that left: the calls of [send]
    that a run of [handleClose] adds to the trace are one per session that
    remains, in set order, each with the leave message. *)
Theorem handleClose_removal_is_idempotent session uuid1 now1 uuid2 now2 st :
  let st1 := snd (handleClose session uuid1 now1 st) in
  let st2 := snd (handleClose session uuid2 now2 st1) in
  let new := drop (length (trace st)) (trace st1) in
  trace st1 = trace st ++ new
  ∧ sessions st1 = set_delete session (sessions st)
  ∧ sessions st2 = sessions st1
  ∧ Forall (λ s, Session.ref s ≠ Session.ref session) (sessions st1)
  ∧ attempts new
    = (if not_quit session
       then (λ s, (Session.webSocket s,
                   MessageText (departed session uuid1 now1)))
              <$> sessions st1
       else [])
  ∧ (wf st → session ∈ sessions st →
     Forall (λ '(ws, _), ws ≠ Session.webSocket session) (attempts new)).
Proof.
  intros st1 st2 new. subst new st2 st1. rewrite !handleClose_run.
  cbn [snd sessions trace]. rewrite drop_app_length.
  assert (attempts (close_effects session uuid1 now1 st)
          = (if not_quit session
             then (λ s, (Session.webSocket s,
                         MessageText (departed session uuid1 now1)))
                    <$> set_delete session (sessions st)
             else [])) as Hatt.
  { unfold close_effects. rewrite attempts_app.
    replace (attempts match sockets st !! Session.webSocket session with
                      | Some Open => [Close (Session.webSocket session)]
                      | _ => []
                      end) with (@nil (nat * Text))
      by (by destruct (sockets st !! _) as [[]|]).
    rewrite app_nil_r. destruct (not_quit session); [|done].
    apply attempts_attempt. }
  split; [done|]. split; [done|]. split; [apply set_delete_idempotent|].
  split; [apply set_delete_spares|]. split; [exact Hatt|].
  intros (Hws & _ & _) Hin. rewrite Hatt.
  destruct (not_quit session); [|constructor].
  apply Forall_fmap.
  eapply Forall_impl; [by apply set_delete_other_sockets|]. done.
Qed.


(** ** Steps, as equations *)

Lemma step_run e st :
  step e st
  = match e with
    | Fetch request uuid now => snd (fetch request uuid now st)
    | SocketMessage ws data uuid now =>
        match listeners st !! ws with
        | Some session => snd (handleMessage session data uuid now st)
        | None => st
        end
    | SocketClose ws uuid now | SocketError ws uuid now =>
        match listeners st !! ws with
        | Some session => snd (handleClose session uuid now st)
        | None => st
        end
    | AlarmFired now1 now2 => snd (alarm now1 now2 st)
    | PeerGone ws =>
        match sockets st !! ws with
        | Some _ => set_sockets <[ws := Closed]> st
        | None => st
        end
    end.
Proof.
  destruct e; unfold step; rewrite ?on_socket_run; try reflexivity;
    by destruct (listeners st !! ws).
Qed.

Lemma step_trace e st : trace (step e st) = trace st ++ step_effects e st.
Proof.
  rewrite step_run.
  destruct e as [request uuid now|ws data uuid now|ws uuid now
                 |ws uuid now|now1 now2|ws]; cbn [step_effects].
  - destruct (not_string (searchParams_get request "userId")
              || not_string (searchParams_get request "username"))%bool eqn:Hid.
    { rewrite fetch_reject_identity by done. by rewrite app_nil_r. }
    case_bool_decide as Hup.
    + by rewrite fetch_admit_general.
    + rewrite fetch_reject_upgrade by done. by rewrite app_nil_r.
  - destruct (listeners st !! ws) as [session|]; [|by rewrite app_nil_r].
    destruct (accepted data) as [content|] eqn:Hacc.
    + by rewrite (handleMessage_accepted_run _ _ _ _ _ _ Hacc).
    + by rewrite (handleMessage_discarded_run _ _ _ _ _ Hacc).
  - destruct (listeners st !! ws) as [session|]; [|by rewrite app_nil_r].
    by rewrite handleClose_run.
  - destruct (listeners st !! ws) as [session|]; [|by rewrite app_nil_r].
    by rewrite handleClose_run.
  - by rewrite alarm_run.
  - destruct (sockets st !! ws); by rewrite app_nil_r.
Qed.

(** What a step does to the history, to storage and to the alarm slot:
    nothing, or an append by a message event, or a cleanup by a firing. *)
Lemma step_kept_cases e st :
  (messageHistory (step e st) = messageHistory st
   ∧ stored_messages (step e st) = stored_messages st
   ∧ stored_alarm (step e st) = stored_alarm st
   ∧ rearmed [e] = [])
  ∨ (∃ ws data uuid now session content,
       e = SocketMessage ws data uuid now
       ∧ messageHistory (step e st)
         = slice_last 100 (messageHistory st
                           ++ [minted session content uuid now])
       ∧ stored_messages (step e st) = Some (messageHistory (step e st))
       ∧ stored_alarm (step e st) = stored_alarm st)
  ∨ (∃ now1 now2,
       e = AlarmFired now1 now2
       ∧ messageHistory (step e st)
         = List.filter (λ msg, Z.ltb (now1 - day) (Message.timestamp msg))
                       (messageHistory st)
       ∧ stored_messages (step e st) = Some (messageHistory (step e st))
       ∧ stored_alarm (step e st) = Some (now2 + hour)).
Proof.
  rewrite !step_run.
  destruct e as [request uuid now|ws data uuid now|ws uuid now
                 |ws uuid now|now1 now2|ws].
  - left.
    destruct (not_string (searchParams_get request "userId")
              || not_string (searchParams_get request "username"))%bool eqn:Hid.
    { by rewrite fetch_reject_identity. }
    destruct (decide (headers_get request "Upgrade" = Some "websocket"))
      as [Hup|Hup].
    + by rewrite fetch_admit_general.
    + by rewrite fetch_reject_upgrade.
  - destruct (listeners st !! ws) as [session|]; [|by left].
    destruct (accepted data) as [content|] eqn:Hacc.
    + right; left. exists ws, data, uuid, now, session, content.
      by rewrite (handleMessage_accepted_run _ _ _ _ _ _ Hacc).
    + left. by rewrite (handleMessage_discarded_run _ _ _ _ _ Hacc).
  - left. destruct (listeners st !! ws) as [session|]; [|done].
    by rewrite handleClose_run.
  - left. destruct (listeners st !! ws) as [session|]; [|done].
    by rewrite handleClose_run.
  - right; right. exists now1, now2. by rewrite alarm_run.
  - left. by destruct (sockets st !! ws).
Qed.

Lemma run_cons e events st : run (e :: events) st = run events (step e st).
Proof. reflexivity. Qed.

Lemma run_app events1 events2 st :
  run (events1 ++ events2) st = run events2 (run events1 st).
Proof. unfold run. apply fold_left_app. Qed.

(** In every room reached from the constructor, storage holds the
    history that is in memory; so a room constructed again from that
    storage starts with the same history. *)
Theorem storage_mirrors_history stored events :
  let st := run events (constructor stored) in
  messageHistory st = default [] (stored_messages st)
  ∧ messageHistory (constructor (stored_messages st)) = messageHistory st.
Proof.
  intros st.
  assert (messageHistory st = default [] (stored_messages st)) as Hst.
  { subst st.
    apply (run_invariant
             (λ st, messageHistory st = default [] (stored_messages st))).
    - intros e st Hst.
      destruct (step_kept_cases e st)
        as [(-> & -> & _)|[(? & ? & ? & ? & ? & ? & _ & _ & -> & _)
                          |(? & ? & _ & _ & -> & _)]]; done.
    - by destruct stored. }
  split; [exact Hst|]. rewrite Hst.
  by destruct (stored_messages st).
Qed.

(** The history never outgrows the cap by itself: in every room
    reached from the constructor it has at most 100 entries, or at most as
    many as storage held at construction if that was more. *)
Theorem history_stays_within_cap stored events :
  (length (messageHistory (run events (constructor stored)))
   ≤ 100 `max` length (default [] stored))%nat.
Proof.
  apply (run_invariant
           (λ st, (length (messageHistory st)
                   ≤ 100 `max` length (default [] stored))%nat)).
  - intros e st Hst.
    destruct (step_kept_cases e st)
      as [(-> & _)|[(? & ? & ? & ? & ? & ? & _ & -> & _)
                   |(? & ? & _ & -> & _)]].
    + done.
    + rewrite slice_last_length. lia.
    + etrans; [|exact Hst]. apply List.filter_length_le.
  - destruct stored; simpl; lia.
Qed.

Lemma alarm_times_app a b : alarm_times (a ++ b) = alarm_times a ++ alarm_times b.
Proof. apply bind_app. Qed.

Lemma alarm_times_attempt socks label text (l : list WebSocketSession) :
  alarm_times (l ≫= attempt socks label text) = [].
Proof.
  induction l as [|s l IH]; [done|].
  rewrite bind_cons, alarm_times_app, IH, app_nil_r.
  unfold attempt. by destruct (socks !! _) as [[]|].
Qed.

Lemma alarm_times_attempt1 socks label text session :
  alarm_times (attempt socks label text session) = [].
Proof. unfold attempt. by destruct (socks !! _) as [[]|]. Qed.

Lemma alarm_times_step e st : alarm_times (step_effects e st) = rearmed [e].
Proof.
  destruct e as [request uuid now|ws data uuid now|ws uuid now
                 |ws uuid now|now1 now2|ws]; cbn [step_effects]; try done.
  - destruct (_ || _)%bool; [done|]. case_bool_decide; [|done].
    cbv zeta. rewrite !alarm_times_app, alarm_times_attempt,
      !alarm_times_attempt1. done.
  - destruct (listeners st !! ws); [|done].
    destruct (accepted data); [|by destruct (throws data)].
    cbv zeta. change (alarm_times (?x :: ?l)) with (alarm_times [x] ++ alarm_times l).
    by rewrite alarm_times_attempt.
  - destruct (listeners st !! ws); [|done]. unfold close_effects.
    rewrite alarm_times_app.
    destruct (not_quit _); rewrite ?alarm_times_attempt;
      by destruct (sockets st !! _) as [[]|].
  - destruct (listeners st !! ws); [|done]. unfold close_effects.
    rewrite alarm_times_app.
    destruct (not_quit _); rewrite ?alarm_times_attempt;
      by destruct (sockets st !! _) as [[]|].
Qed.

Lemma rearmed_cons e events : rearmed (e :: events) = rearmed [e] ++ rearmed events.
Proof. unfold rearmed. rewrite !bind_cons. simpl. by rewrite app_nil_r. Qed.

(** The room calls [setAlarm] once per firing of the alarm and at no
    other time: over any events from the constructor, the calls in the
    trace are those of the firings, in order, and the alarm slot holds the
    last of them. Without a firing the slot stays empty: no request, frame
    or close arms the cleanup. *)
Theorem alarm_is_armed_only_by_a_firing stored events :
  let st := run events (constructor stored) in
  alarm_times (trace st) = rearmed events
  ∧ stored_alarm st = last (rearmed events)
  ∧ (rearmed events = [] → stored_alarm st = None).
Proof.
  intros st.
  assert (∀ st0, alarm_times (trace (run events st0))
                 = alarm_times (trace st0) ++ rearmed events
                 ∧ stored_alarm (run events st0)
                   = from_option Some (stored_alarm st0) (last (rearmed events)))
    as Hgen.
  { induction events as [|e events IH]; intros st0.
    - simpl. by rewrite app_nil_r.
    - rewrite run_cons. destruct (IH (step e st0)) as [-> ->].
      rewrite step_trace, alarm_times_app, alarm_times_step, <- app_assoc.
      rewrite (rearmed_cons e events). split; [done|].
      rewrite last_app.
      destruct (step_kept_cases e st0)
        as [(_ & _ & -> & ->)|[(? & ? & ? & ? & ? & ? & -> & _ & _ & ->)
                              |(? & ? & -> & _ & _ & ->)]];
        simpl; by destruct (last (rearmed events)). }
  destruct (Hgen (constructor stored)) as [Ht Ha]. subst st.
  rewrite Ht, Ha.
  assert (trace (constructor stored) = []) as -> by (by destruct stored).
  assert (stored_alarm (constructor stored) = None) as -> by (by destruct stored).
  repeat split.
  - by destruct (last (rearmed events)).
  - by intros ->.
Qed.

(** ** Sessions, listeners and sockets *)

Lemma elem_of_set_delete session (set : list WebSocketSession) s :
  s ∈ set_delete session set
  ↔ s ∈ set ∧ Session.ref s ≠ Session.ref session.
Proof.
  unfold set_delete. rewrite !list_elem_of_In, filter_In, <- list_elem_of_In.
  unfold same_session. rewrite negb_true_iff, Nat.eqb_neq.
  split; intros [? ?]; split; congruence.
Qed.

Lemma linked_constructor stored : linked (constructor stored).
Proof.
  split; [apply wf_constructor|].
  destruct stored; simpl; (split; [constructor|]); split; intros ws s;
    by rewrite lookup_empty.
Qed.

Lemma closed_lookup ws ws' socks :
  closed ws socks !! ws'
  = if decide (ws = ws')
    then match socks !! ws with Some Open => Some Closed | o => o end
    else socks !! ws'.
Proof.
  unfold closed. case_decide as Heq.
  - subst. destruct (socks !! ws') as [[]|] eqn:H; rewrite ?H; try done.
    apply lookup_insert_eq.
  - destruct (socks !! ws) as [[]|]; try done. by apply lookup_insert_ne.
Qed.

Lemma linked_step e st : linked st → linked (step e st).
Proof.
  intros (Hwf & Hlive & Hwired & Hopen).
  split; [by apply wf_step|]. rewrite step_run.
  destruct e as [request uuid now|ws data uuid now|ws uuid now
                 |ws uuid now|now1 now2|ws].
  - destruct (not_string (searchParams_get request "userId")
              || not_string (searchParams_get request "username"))%bool eqn:Hid.
    { by rewrite fetch_reject_identity. }
    destruct (decide (headers_get request "Upgrade" = Some "websocket"))
      as [Hup|Hup]; [|by rewrite fetch_reject_upgrade].
    rewrite fetch_admit_general by done. cbn [snd sessions listeners sockets next_ref].
    destruct Hwf as (_ & _ & Hlt).
    rewrite set_add_fresh
      by (eapply Forall_impl; [exact Hlt|]; simpl; intros; lia).
    cbn [admitted_session Session.webSocket].
    split; [|split].
    + apply Forall_app. split.
      * rewrite Forall_forall in Hlive, Hlt |- *. intros s Hin.
        rewrite lookup_insert_ne; [by apply Hlive|].
        specialize (Hlt s Hin). lia.
      * repeat constructor. apply lookup_insert_eq.
    + intros ws s. rewrite !lookup_insert. case_decide as Heq.
      * intros [= <-]. subst ws. simpl. repeat split; try lia. by eexists.
      * intros H. destruct (Hwired ws s H) as (? & ? & ? & ?).
        repeat split; try done; lia.
    + intros ws s. rewrite !lookup_insert. case_decide as Heq.
      * intros [= <-] _. apply elem_of_app. right. by apply list_elem_of_singleton.
      * intros H1 H2. apply elem_of_app. left. by eapply Hopen.
  - destruct (listeners st !! ws) as [session|]; [|done].
    destruct (accepted data) as [content|] eqn:Hacc.
    + by rewrite (handleMessage_accepted_run _ _ _ _ _ _ Hacc).
    + by rewrite (handleMessage_discarded_run _ _ _ _ _ Hacc).
  - destruct (listeners st !! ws) as [session|] eqn:Hws; [|done].
    rewrite handleClose_run. cbn [snd sessions listeners sockets next_ref].
    destruct (Hwired ws session Hws) as (Hs & Hr & _ & _).
    split; [|split].
    + rewrite Forall_forall in Hlive |- *.
      intros s [Hin _]%elem_of_set_delete. by apply Hlive.
    + intros ws' s H. destruct (Hwired ws' s H) as (? & ? & ? & Hsome).
      repeat split; try done. rewrite closed_lookup, Hs.
      case_decide as Heq; [|done].
      rewrite <- Heq in Hsome. destruct Hsome as [[] ->]; by eexists.
    + intros ws' s H. rewrite closed_lookup, Hs. case_decide as Heq.
      * subst ws'. by destruct (sockets st !! ws) as [[]|].
      * intros Ho. apply elem_of_set_delete. split; [by eapply Hopen|].
        destruct (Hwired ws' s H) as (_ & -> & _). rewrite Hr. congruence.
  - destruct (listeners st !! ws) as [session|] eqn:Hws; [|done].
    rewrite handleClose_run. cbn [snd sessions listeners sockets next_ref].
    destruct (Hwired ws session Hws) as (Hs & Hr & _ & _).
    split; [|split].
    + rewrite Forall_forall in Hlive |- *.
      intros s [Hin _]%elem_of_set_delete. by apply Hlive.
    + intros ws' s H. destruct (Hwired ws' s H) as (? & ? & ? & Hsome).
      repeat split; try done. rewrite closed_lookup, Hs.
      case_decide as Heq; [|done].
      rewrite <- Heq in Hsome. destruct Hsome as [[] ->]; by eexists.
    + intros ws' s H. rewrite closed_lookup, Hs. case_decide as Heq.
      * subst ws'. by destruct (sockets st !! ws) as [[]|].
      * intros Ho. apply elem_of_set_delete. split; [by eapply Hopen|].
        destruct (Hwired ws' s H) as (_ & -> & _). rewrite Hr. congruence.
  - by rewrite alarm_run.
  - destruct (sockets st !! ws) as [state|] eqn:Hsock; [|done].
    cbn [set_sockets sessions listeners sockets next_ref].
    split; [done|]. split.
    + intros ws' s H. destruct (Hwired ws' s H) as (? & ? & ? & Hsome).
      repeat split; try done. rewrite lookup_insert. by case_decide.
    + intros ws' s H. rewrite lookup_insert. case_decide; [done|].
      by apply Hopen.
Qed.

Lemma linked_run events stored : linked (run events (constructor stored)).
Proof. apply run_invariant; [apply linked_step|apply linked_constructor]. Qed.

(** In every room reached from the constructor, sessions, listeners
    and sockets agree: the live sessions are distinct objects with distinct
    sockets; each live session is the one its socket's listeners were wired
    for; and a wired socket that is still open belongs to a live session,
    so the room holds no open socket of a session it has removed. *)
Theorem sessions_listeners_and_sockets_agree stored events :
  let st := run events (constructor stored) in
  NoDup (Session.ref <$> sessions st)
  ∧ NoDup (Session.webSocket <$> sessions st)
  ∧ Forall (λ s, listeners st !! Session.webSocket s = Some s) (sessions st)
  ∧ (∀ ws s, listeners st !! ws = Some s →
       Session.webSocket s = ws ∧ is_Some (sockets st !! ws))
  ∧ (∀ ws s, listeners st !! ws = Some s → sockets st !! ws = Some Open →
       s ∈ sessions st).
Proof.
  intros st. destruct (linked_run events stored)
    as ((Hws & Href & _) & Hlive & Hwired & Hopen). fold st in Hwired.
  split; [done|]. split; [done|]. split; [done|]. split; [|done].
  intros ws s H. by destruct (Hwired ws s H) as (? & _ & _ & ?).
Qed.

Lemma set_delete_middle session (l1 l2 : list WebSocketSession) :
  NoDup (Session.ref <$> l1 ++ session :: l2) →
  set_delete session (l1 ++ session :: l2) = l1 ++ l2.
Proof.
  rewrite fmap_app, fmap_cons. intros Hnd.
  apply NoDup_app in Hnd as (_ & Hl1 & [Hl2 _]%NoDup_cons).
  assert (∀ l : list WebSocketSession,
            Session.ref session ∉ Session.ref <$> l → set_delete session l = l)
    as Hkeep.
  { induction l as [|s l IH]; [done|]. rewrite fmap_cons, not_elem_of_cons.
    intros [Hne Hl]. unfold set_delete in *. simpl. unfold same_session at 1.
    apply Nat.eqb_neq in Hne. rewrite Hne. simpl. by rewrite IH. }
  unfold set_delete in *. rewrite List.filter_app. simpl.
  unfold same_session at 2. rewrite Nat.eqb_refl. simpl.
  rewrite !Hkeep; [done|done|].
  intros Hin. apply (Hl1 _ Hin). by left.
Qed.

(** Closing removes exactly the session it is called for. In a room
    whose live sessions are distinct objects, [handleClose] takes that one
    session out of the set and leaves every other where it was, in order,
    those of the same user included: the roster loses one entry. *)
Theorem handleClose_removes_exactly_the_session
    session uuid now st (before after : list WebSocketSession) :
  NoDup (Session.ref <$> sessions st) →
  sessions st = before ++ session :: after →
  let st' := snd (handleClose session uuid now st) in
  sessions st' = before ++ after
  ∧ roster (sessions st') = roster before ++ roster after
  ∧ length (roster (sessions st)) = S (length (roster (sessions st'))).
Proof.
  intros Hnd Hset st'. subst st'. rewrite handleClose_run. cbn [snd sessions].
  rewrite Hset in Hnd |- *. rewrite (set_delete_middle _ _ _ Hnd).
  unfold roster. rewrite !fmap_app, !length_app, fmap_cons. simpl.
  repeat split. lia.
Qed.

Lemma handleClose_removes_exactly_the_session_witness :
  sessions tabs_room = [alice; alice_again]
  ∧ roster (sessions (snd (handleClose alice "leave-1" 3000 tabs_room)))
    = [("alice-1", "Alice")].
Proof.
  split; [reflexivity|].
  apply (handleClose_removes_exactly_the_session
           alice "leave-1" 3000 tabs_room [] [alice_again]);
    [exact (proj1 (proj2 (wf_run _ None))) | reflexivity].
Defined.

(** Admission and removal undo each other on the live set. After a
    valid [fetch] into a well-formed room, [handleClose] for the session
    just admitted leaves the set of live sessions as it was before the
    request, closes the socket that was opened for it, and leaves the
    history alone. *)
Theorem fetch_then_handleClose_restores_sessions
    request uuid now uuid' now' st userId username :
  searchParams_get request "userId" = Some userId → userId ≠ "" →
  searchParams_get request "username" = Some username → username ≠ "" →
  headers_get request "Upgrade" = Some "websocket" →
  wf st →
  let server := S (next_ref st) in
  let session := Session.mk (S server) server userId username None in
  let st1 := snd (fetch request uuid now st) in
  let st2 := snd (handleClose session uuid' now' st1) in
  session ∈ sessions st1
  ∧ sessions st2 = sessions st
  ∧ sockets st1 !! server = Some Open
  ∧ sockets st2 !! server = Some Closed
  ∧ messageHistory st2 = messageHistory st.
Proof.
  intros Hu Hu' Hn Hn' Hup Hwf server session st1 st2. subst st2 st1.
  rewrite (fetch_admit_run _ _ _ _ _ _ Hu Hu' Hn Hn' Hup Hwf).
  rewrite handleClose_run. cbn [snd sessions sockets messageHistory].
  destruct Hwf as (_ & Href & Hlt).
  split; [apply elem_of_app; right; by apply list_elem_of_singleton|].
  split.
  - rewrite <- (app_nil_r (sessions st)) at 2.
    apply set_delete_middle. rewrite fmap_app. apply NoDup_app.
    split; [done|]. split; [|apply NoDup_singleton]. simpl.
    intros x [s [-> Hin]]%list_elem_of_fmap Hx%list_elem_of_singleton.
    rewrite Forall_forall in Hlt. apply Hlt in Hin. lia.
  - split; [apply lookup_insert_eq|]. split; [|done].
    rewrite closed_lookup. cbn [Session.webSocket]. rewrite decide_True by done.
    by rewrite lookup_insert_eq.
Qed.

Lemma fetch_then_handleClose_restores_sessions_witness :
  sessions (snd (handleClose bob "leave-b" 3000
                   (snd (fetch bob_request "join-b" 2000 alice_room))))
  = sessions alice_room.
Proof.
  apply (fetch_then_handleClose_restores_sessions
           bob_request "join-b" 2000 "leave-b" 3000 alice_room "bob-1" "Bob");
    [reflexivity | discriminate | reflexivity | discriminate | reflexivity
    | apply wf_run].
Defined.

(** ** A socket that is not open *)

Lemma delivered_attempt_not_open socks label text ws (l : list WebSocketSession) :
  is_open socks ws = false →
  delivered ws (l ≫= attempt socks label text) = [].
Proof.
  intros Hws. induction l as [|s l IH]; [done|].
  rewrite bind_cons, delivered_app, IH, app_nil_r. unfold attempt.
  destruct (socks !! Session.webSocket s) as [[]|] eqn:Hs; try done.
  rewrite delivered_send_other; [done|]. intros Heq.
  unfold is_open in Hws. by rewrite <- Heq, Hs in Hws.
Qed.

Lemma delivered_attempt1_not_open socks label text ws session :
  is_open socks ws = false →
  delivered ws (attempt socks label text session) = [].
Proof.
  intros Hws.
  pose proof (delivered_attempt_not_open socks label text ws [session] Hws) as H.
  by rewrite bind_cons, app_nil_r in H.
Qed.

Lemma is_open_insert_ne socks ws ws' state :
  ws ≠ ws' → is_open (<[ws' := state]> socks) ws = is_open socks ws.
Proof. intros H. unfold is_open. by rewrite lookup_insert_ne. Qed.

Lemma is_open_closed ws ws' socks :
  is_open socks ws = false → is_open (closed ws' socks) ws = false.
Proof.
  unfold is_open. rewrite closed_lookup. case_decide as Heq; [|done].
  subst. by destruct (socks !! ws) as [[]|].
Qed.

Lemma is_open_closed_same ws socks : is_open (closed ws socks) ws = false.
Proof.
  unfold is_open. rewrite closed_lookup, decide_True by done.
  by destruct (socks !! ws) as [[]|].
Qed.

(** A step hands nothing to a socket that was allocated and is not open,
    and leaves it so. *)
Lemma step_not_open e st ws :
  is_open (sockets st) ws = false → (ws < next_ref st)%nat →
  delivered ws (step_effects e st) = []
  ∧ is_open (sockets (step e st)) ws = false
  ∧ (ws < next_ref (step e st))%nat.
Proof.
  intros Hws Hlt. rewrite step_run.
  destruct e as [request uuid now|ws' data uuid now|ws' uuid now
                 |ws' uuid now|now1 now2|ws']; cbn [step_effects].
  - destruct (not_string (searchParams_get request "userId")
              || not_string (searchParams_get request "username"))%bool eqn:Hid.
    { by rewrite fetch_reject_identity. }
    case_bool_decide as Hup; [|by rewrite fetch_reject_upgrade].
    rewrite fetch_admit_general by done. cbn [snd sockets next_ref].
    cbn [admitted_session Session.webSocket].
    assert (is_open (<[S (next_ref st) := Open]> (sockets st)) ws = false)
      as Hws' by (rewrite is_open_insert_ne; [done|lia]).
    rewrite !delivered_app, delivered_attempt_not_open,
      !delivered_attempt1_not_open by done.
    repeat split; [done|lia].
  - destruct (listeners st !! ws') as [session|]; [|done].
    destruct (accepted data) as [content|] eqn:Hacc.
    + rewrite (handleMessage_accepted_run _ _ _ _ _ _ Hacc).
      cbn [snd sockets next_ref].
      change (delivered ws (?x :: ?l)) with (delivered ws [x] ++ delivered ws l).
      by rewrite delivered_attempt_not_open.
    + rewrite (handleMessage_discarded_run _ _ _ _ _ Hacc).
      by destruct (throws data).
  - destruct (listeners st !! ws') as [session|]; [|done].
    rewrite handleClose_run. cbn [snd sockets next_ref]. unfold close_effects.
    rewrite delivered_app.
    split; [|split; [by apply is_open_closed|done]].
    destruct (not_quit session); rewrite ?delivered_attempt_not_open by done;
      by destruct (sockets st !! _) as [[]|].
  - destruct (listeners st !! ws') as [session|]; [|done].
    rewrite handleClose_run. cbn [snd sockets next_ref]. unfold close_effects.
    rewrite delivered_app.
    split; [|split; [by apply is_open_closed|done]].
    destruct (not_quit session); rewrite ?delivered_attempt_not_open by done;
      by destruct (sockets st !! _) as [[]|].
  - by rewrite alarm_run.
  - destruct (sockets st !! ws') as [state|] eqn:Hs; [|done].
    cbn [set_sockets sockets next_ref]. repeat split; try done.
    unfold is_open in *. rewrite lookup_insert. by case_decide.
Qed.

Lemma run_not_open events st ws :
  is_open (sockets st) ws = false → (ws < next_ref st)%nat →
  delivered ws (trace (run events st)) = delivered ws (trace st)
  ∧ is_open (sockets (run events st)) ws = false.
Proof.
  revert st. induction events as [|e events IH]; intros st Hws Hlt; [done|].
  rewrite run_cons.
  destruct (step_not_open e st ws Hws Hlt) as (Hd & Hws' & Hlt').
  destruct (IH _ Hws' Hlt') as [-> ->].
  by rewrite step_trace, delivered_app, Hd, app_nil_r.
Qed.

(** Once the close or the error listener of a socket has started, the
    room never hands that socket another text. In a room reached from the
    constructor, for a socket with listeners: the leave broadcast of the
    teardown skips it, the teardown leaves it not open, and whatever
    happens afterwards, requests, frames, closes or firings, nothing more
    is delivered to it and it is never open again. *)
Theorem torn_down_socket_gets_nothing_more
    stored before ws uuid now after :
  let st := run before (constructor stored) in
  is_Some (listeners st !! ws) →
  let st1 := step (SocketClose ws uuid now) st in
  step (SocketError ws uuid now) st = st1
  ∧ delivered ws (trace (run after st1)) = delivered ws (trace st)
  ∧ is_open (sockets (run after st1)) ws = false.
Proof.
  intros st [session Hws] st1. split; [reflexivity|].
  destruct (linked_run before stored)
    as (_ & Hlive & Hwired & _). fold st in Hlive, Hwired.
  destruct (Hwired ws session Hws) as (Hs & Hr & Hlt & _).
  assert (delivered ws (step_effects (SocketClose ws uuid now) st) = []
          ∧ is_open (sockets st1) ws = false
          ∧ (ws < next_ref st1)%nat) as (Hd & Hclosed & Hlt1).
  { subst st1. rewrite step_run. cbn [step_effects]. rewrite Hws.
    rewrite handleClose_run. cbn [snd sockets next_ref]. rewrite Hs.
    split; [|split; [apply is_open_closed_same|done]].
    unfold close_effects. rewrite delivered_app, Hs.
    replace (delivered ws match sockets st !! ws with
                          | Some Open => [Close ws]
                          | _ => []
                          end) with (@nil Text)
      by (by destruct (sockets st !! ws) as [[]|]).
    rewrite app_nil_r. destruct (not_quit session); [|done].
    apply delivered_attempt_other. apply Forall_forall.
    intros s [Hin Hne]%elem_of_set_delete Heq.
    rewrite Forall_forall in Hlive. specialize (Hlive s Hin).
    rewrite Heq, Hws in Hlive. congruence. }
  destruct (run_not_open after st1 ws Hclosed Hlt1) as [-> ->].
  subst st1. by rewrite step_trace, delivered_app, Hd, app_nil_r.
Qed.

Lemma torn_down_socket_gets_nothing_more_witness :
  delivered 1 (trace (run aftermath
                        (step (SocketClose 1 "leave-a" 3000) two_room)))
  = delivered 1 (trace two_room).
Proof.
  apply (torn_down_socket_gets_nothing_more None
           [Fetch alice_request "join-a" 1000; Fetch bob_request "join-b" 2000]
           1%nat "leave-a" 3000 aftermath).
  by exists alice.
Defined.

(** ** The answer of [fetch] *)

(** [fetch] never throws and answers with one of three statuses, each
    decided by the request alone: 400 exactly when an identity parameter is
    missing or empty, whatever the headers; 426 exactly when the identity
    is there and the Upgrade header is not [websocket]; 101 exactly when
    both are in order. Only the 101 answer carries a socket, and only it
    changes the room. *)
Theorem fetch_answer_is_decided_by_the_request request uuid now st :
  ∃ r st',
    fetch request uuid now st = (Normal r, st')
    ∧ status r
      = (if has_identity request
         then if asks_websocket request then 101 else 426
         else 400)%nat
    ∧ (response_webSocket r
       = if (has_identity request && asks_websocket request)%bool
         then Some (next_ref st) else None)
    ∧ (status r ≠ 101%nat → st' = st)
    ∧ (status r = 101%nat →
       (next_ref st < next_ref st')%nat
       ∧ sockets st' !! S (next_ref st) = Some Open
       ∧ listeners st' !! S (next_ref st) = Some (admitted_session request st)).
Proof.
  unfold has_identity, asks_websocket.
  destruct (not_string (searchParams_get request "userId")
            || not_string (searchParams_get request "username"))%bool eqn:Hid.
  { rewrite fetch_reject_identity by done. eexists _, _. simpl.
    repeat split; done. }
  case_bool_decide as Hup.
  - rewrite fetch_admit_general by done. eexists _, _. simpl.
    split; [reflexivity|]. split; [reflexivity|]. split; [done|].
    split; [done|]. intros _. cbn [next_ref sockets listeners].
    split; [lia|]. split; apply lookup_insert_eq.
  - rewrite fetch_reject_upgrade by done. eexists _, _. simpl.
    repeat split; done.
Qed.

(** ** The guard of [handleMessage] *)

Lemma accepted_or_refused data :
  refused data ∨ ∃ content, accepted data = Some content.
Proof.
  destruct data as [parsed|]; [|left; by left].
  destruct parsed as [| | | | |members];
    try (left; right; eexists; split; [done|]; left; by simpl).
  unfold accepted.
  destruct (strict_equals_string (own_property "type" members) "message")
    eqn:Hty.
  - destruct (truthy (own_property "content" members)) eqn:Htr.
    + right. destruct (own_property "content" members); [by eexists|done].
    + left; right. eexists. split; [done|]. right. by eexists.
  - left; right. eexists. split; [done|]. left. simpl. intros [= H].
    rewrite H in Hty. discriminate Hty.
Qed.

(** The guard of [handleMessage] has no third outcome. A frame is
    refused (it does not parse, its type is not the string message, or its
    content is falsy), and then the history is untouched and nothing is
    sent; or it carries a truthy content under type message, and then
    exactly one message with that content and the session's identity is
    appended before capping, stored, and offered to every live session,
    whatever else the frame holds and whatever kind of value the content
    is. *)
Theorem handleMessage_refuses_or_appends session data uuid now st :
  let st' := snd (handleMessage session data uuid now st) in
  let new := drop (length (trace st)) (trace st') in
  trace st' = trace st ++ new
  ∧ ((refused data
      ∧ accepted data = None
      ∧ messageHistory st' = messageHistory st
      ∧ stored_messages st' = stored_messages st
      ∧ attempts new = [])
     ∨ (∃ content,
          ¬ refused data
          ∧ accepted data = Some content
          ∧ truthy (Some content) = true
          ∧ messageHistory st'
            = slice_last 100 (messageHistory st
                              ++ [minted session content uuid now])
          ∧ stored_messages st' = Some (messageHistory st')
          ∧ attempts new
            = (λ s, (Session.webSocket s,
                     MessageText (minted session content uuid now)))
                <$> sessions st)).
Proof.
  intros st' new. subst new st'.
  destruct (accepted_or_refused data) as [Href|[content Hacc]].
  - pose proof (refused_not_accepted _ Href) as Hacc.
    rewrite (handleMessage_discarded_run _ _ _ _ _ Hacc). simpl.
    rewrite drop_app_length. split; [done|]. left.
    repeat split; try done. by destruct (throws data).
  - rewrite (handleMessage_accepted_run _ _ _ _ _ _ Hacc).
    cbn [snd messageHistory stored_messages trace]. rewrite drop_app_length.
    split; [done|]. right. exists content.
    split; [|split; [done|split; [by eapply accepted_truthy|]]].
    + intros Href. apply refused_not_accepted in Href. congruence.
    + repeat split.
      change (attempts (?x :: ?l)) with (attempts [x] ++ attempts l).
      simpl. apply attempts_attempt.
Qed.

(** ** The order of the history *)

Lemma StronglySorted_sublist {A} (R : relation A) (l k : list A) :
  sublist l k → StronglySorted R k → StronglySorted R l.
Proof.
  induction 1 as [|x l k Hsub IH|x l k Hsub IH]; intros Hk; [done| |].
  - apply StronglySorted_inv in Hk as [Hk Hx]. constructor; [by apply IH|].
    rewrite Forall_forall in Hx |- *. intros y Hy. apply Hx.
    by eapply elem_of_sublist.
  - apply StronglySorted_inv in Hk as [Hk _]. by apply IH.
Qed.

Lemma frame_times_cons e events :
  frame_times (e :: events) = frame_times [e] ++ frame_times events.
Proof. unfold frame_times. rewrite !bind_cons. simpl. by rewrite app_nil_r. Qed.

Lemma sublist_List_filter {A} (f : A → bool) (l : list A) :
  sublist (List.filter f l) l.
Proof.
  induction l as [|x l IH]; simpl; [constructor|].
  destruct (f x); by constructor.
Qed.

Lemma step_times_sublist e events st :
  sublist (timestamps (messageHistory (step e st)) ++ frame_times events)
          (timestamps (messageHistory st) ++ frame_times (e :: events)).
Proof.
  rewrite frame_times_cons. unfold timestamps.
  destruct (step_kept_cases e st)
    as [(-> & _)|[(ws & data & uuid & now & session & content & -> & -> & _)
                 |(now1 & now2 & -> & -> & _)]].
  - apply sublist_app; [done|]. by apply sublist_inserts_l.
  - unfold slice_last. rewrite fmap_drop, fmap_app.
    change (frame_times [SocketMessage ws data uuid now]) with [now].
    change (Message.timestamp <$> [minted session content uuid now])
      with [now].
    rewrite (app_assoc _ [now]).
    apply sublist_app; [|done]. apply sublist_drop.
  - simpl. apply sublist_app; [|done]. apply fmap_sublist, sublist_List_filter.
Qed.

Lemma run_times_sorted events st :
  StronglySorted Z.le (timestamps (messageHistory st) ++ frame_times events) →
  StronglySorted Z.le (timestamps (messageHistory (run events st))).
Proof.
  revert st. induction events as [|e events IH]; intros st Hst.
  - simpl in Hst. by rewrite app_nil_r in Hst.
  - rewrite run_cons. apply IH.
    eapply StronglySorted_sublist; [apply step_times_sublist|exact Hst].
Qed.

Lemma sorted_filter_is_drop cutoff (history : list ChatMessage) :
  StronglySorted Z.le (timestamps history) →
  ∃ k, List.filter (λ msg, Z.ltb cutoff (Message.timestamp msg)) history
       = drop k history.
Proof.
  unfold timestamps.
  induction history as [|m history IH]; intros Hs; [by exists 0%nat|].
  rewrite fmap_cons in Hs. apply StronglySorted_inv in Hs as [Hs Hm].
  cbn [List.filter].
  destruct (Z.ltb_spec cutoff (Message.timestamp m)) as [Hlt|Hle].
  - exists 0%nat. cbn [drop]. f_equal.
    apply forallb_filter_id, forallb_forall. intros m' Hin.
    apply Z.ltb_lt. rewrite Forall_forall in Hm.
    assert (Message.timestamp m ≤ Message.timestamp m')%Z.
    { apply Hm. apply list_elem_of_fmap. exists m'. split; [done|].
      by apply list_elem_of_In. }
    lia.
  - destruct (IH Hs) as [k Hk]. exists (S k). by rewrite Hk.
Qed.

(** When the clock readings of the message events do not go back, the
    history is in clock order in every room reached from the constructor
    (given that what storage held was in order and not later than the first
    frame); and then the cleanup drops oldest first: what a firing keeps is
    the history without some first entries. *)
Theorem history_is_in_clock_order stored events :
  StronglySorted Z.le (timestamps (default [] stored) ++ frame_times events) →
  let st := run events (constructor stored) in
  StronglySorted Z.le (timestamps (messageHistory st))
  ∧ ∀ now1 now2,
      ∃ k, messageHistory (snd (alarm now1 now2 st)) = drop k (messageHistory st).
Proof.
  intros Hsorted st.
  assert (StronglySorted Z.le (timestamps (messageHistory st))) as Hst.
  { apply run_times_sorted. by destruct stored. }
  split; [exact Hst|]. intros now1 now2. rewrite alarm_run.
  cbn [snd messageHistory]. by apply sorted_filter_is_drop.
Qed.

Lemma history_is_in_clock_order_witness :
  StronglySorted Z.le
    (timestamps (messageHistory (run conversation (constructor None)))).
Proof.
  apply (history_is_in_clock_order None conversation).
  vm_compute. repeat constructor; done.
Defined.

(** ** Firings compose *)

Lemma filter_filter_timestamps a b (history : list ChatMessage) :
  List.filter (λ msg, Z.ltb b (Message.timestamp msg))
    (List.filter (λ msg, Z.ltb a (Message.timestamp msg)) history)
  = List.filter (λ msg, Z.ltb (a `max` b) (Message.timestamp msg)) history.
Proof.
  induction history as [|m history IH]; [done|]. simpl.
  destruct (Z.ltb_spec a (Message.timestamp m));
    destruct (Z.ltb_spec (a `max` b) (Message.timestamp m));
    simpl; rewrite ?IH;
    destruct (Z.ltb_spec b (Message.timestamp m)); try done; lia.
Qed.

(** A firing only removes: what it keeps is a sublist of the history, and
    all of it when every entry is newer than the cutoff. Two firings keep
    what one firing at the later of the two clock readings keeps, so a
    second firing at the same reading changes nothing. A firing talks to no
    socket and leaves sessions, listeners and sockets alone. *)
Theorem alarm_firings_compose a a' b b' st :
  let st1 := snd (alarm a a' st) in
  let st2 := snd (alarm b b' st1) in
  sublist (messageHistory st1) (messageHistory st)
  ∧ (Forall (λ msg, a - 24 * 60 * 60 * 1000 < Message.timestamp msg)
            (messageHistory st) →
     messageHistory st1 = messageHistory st)
  ∧ messageHistory st2
    = List.filter (λ msg, Z.ltb (a `max` b - 24 * 60 * 60 * 1000)
                                (Message.timestamp msg))
                  (messageHistory st)
  ∧ (a = b → messageHistory st2 = messageHistory st1)
  ∧ attempts (drop (length (trace st)) (trace st1)) = []
  ∧ sessions st1 = sessions st
  ∧ sockets st1 = sockets st
  ∧ listeners st1 = listeners st.
Proof.
  intros st1 st2. subst st2 st1. rewrite !alarm_run.
  cbn [snd messageHistory trace sessions sockets listeners].
  rewrite drop_app_length.
  split; [apply sublist_List_filter|]. split.
  { intros Hall. apply forallb_filter_id, forallb_forall. intros m Hin.
    rewrite Forall_forall in Hall. apply Z.ltb_lt, Hall.
    by apply list_elem_of_In. }
  assert (∀ x y, (x - day) `max` (y - day) = x `max` y - day) as Hmax
    by (intros; lia).
  split; [by rewrite filter_filter_timestamps, Hmax|].
  split; [|done]. intros <-.
  by rewrite filter_filter_timestamps, Z.max_id.
Qed.

(** ** A frame reaches the sender *)

(** An accepted frame is stored first and then handed, once, to every live
    session whose socket is open, the sender among them when it is live:
    the sender's own message comes back on its socket like everyone
    else's. *)
Theorem handleMessage_reaches_the_sender_once
    session data uuid now st content :
  accepted data = Some content →
  NoDup (Session.webSocket <$> sessions st) →
  session ∈ sessions st →
  sockets st !! Session.webSocket session = Some Open →
  let st' := snd (handleMessage session data uuid now st) in
  let new := drop (length (trace st)) (trace st') in
  let text := MessageText (minted session content uuid now) in
  trace st' = trace st ++ new
  ∧ head new = Some (StoragePut (messageHistory st'))
  ∧ delivered (Session.webSocket session) new = [text]
  ∧ Forall (λ s, delivered (Session.webSocket s) new
                 = if is_open (sockets st) (Session.webSocket s)
                   then [text] else [])
           (sessions st).
Proof.
  intros Hacc Hnd Hin Hopen st' new text. subst text new st'.
  rewrite (handleMessage_accepted_run _ _ _ _ _ _ Hacc).
  cbn [snd messageHistory trace]. rewrite drop_app_length.
  pose proof (delivered_attempt_member (sockets st) broadcast_label
                (MessageText (minted session content uuid now)) _ Hnd) as Hall.
  split; [done|]. split; [done|].
  assert (∀ ws l, delivered ws (StoragePut
            (slice_last 100 (messageHistory st
                             ++ [minted session content uuid now])) :: l)
                  = delivered ws l) as Hskip by done.
  split.
  - rewrite Hskip. rewrite Forall_forall in Hall. rewrite (Hall _ Hin).
    unfold is_open. by rewrite Hopen.
  - eapply Forall_impl; [exact Hall|]. intros s Hs. by rewrite Hskip.
Qed.

Lemma handleMessage_reaches_the_sender_once_witness :
  delivered 1
    (drop (length (trace two_room))
          (trace (snd (handleMessage alice (text_frame "hi") "msg-1" 2500
                                     two_room))))
  = [MessageText (minted alice (JString "hi") "msg-1" 2500)].
Proof.
  apply (handleMessage_reaches_the_sender_once
           alice (text_frame "hi") "msg-1" 2500 two_room (JString "hi"));
    [reflexivity | exact (proj1 (wf_run _ None)) | | reflexivity].
  apply list_elem_of_In. vm_compute. by left.
Defined.

(** ** Every teardown announces *)

Lemma step_listeners e st :
  listeners (step e st) = listeners st
  ∨ ∃ request, listeners (step e st)
               = <[S (next_ref st) := admitted_session request st]> (listeners st).
Proof.
  rewrite step_run.
  destruct e as [request uuid now|ws data uuid now|ws uuid now
                 |ws uuid now|now1 now2|ws].
  - destruct (not_string (searchParams_get request "userId")
              || not_string (searchParams_get request "username"))%bool eqn:Hid.
    { left. by rewrite fetch_reject_identity. }
    destruct (decide (headers_get request "Upgrade" = Some "websocket"))
      as [Hup|Hup].
    + right. exists request. by rewrite fetch_admit_general.
    + left. by rewrite fetch_reject_upgrade.
  - left. destruct (listeners st !! ws) as [session|]; [|done].
    destruct (accepted data) as [content|] eqn:Hacc.
    + by rewrite (handleMessage_accepted_run _ _ _ _ _ _ Hacc).
    + by rewrite (handleMessage_discarded_run _ _ _ _ _ Hacc).
  - left. destruct (listeners st !! ws) as [session|]; [|done].
    by rewrite handleClose_run.
  - left. destruct (listeners st !! ws) as [session|]; [|done].
    by rewrite handleClose_run.
  - left. by rewrite alarm_run.
  - left. by destruct (sockets st !! ws).
Qed.

Lemma unmarked_run events stored ws session :
  listeners (run events (constructor stored)) !! ws = Some session →
  Session.quit session = None.
Proof.
  revert ws session.
  apply (run_invariant
           (λ st, ∀ ws session, listeners st !! ws = Some session →
                                Session.quit session = None)).
  - intros e st Hst ws session.
    destruct (step_listeners e st) as [->|[request ->]]; [apply Hst|].
    rewrite lookup_insert. case_decide; [by intros [= <-]|apply Hst].
  - intros ws session. destruct stored; simpl; by rewrite lookup_empty.
Qed.

(** In every room reached from the constructor, no session is ever marked
    [quit] and a listener, once wired, stays wired. So each close or error
    event of a wired socket removes the session and calls [send] with a
    leave message exactly on the sessions that are live after the removal;
    when the session was removed before, those are all live sessions, once
    more. *)
Theorem every_teardown_announces_a_leave
    stored events ws session uuid now :
  let st := run events (constructor stored) in
  listeners st !! ws = Some session →
  let offered l :=
    (λ s, (Session.webSocket s, MessageText (departed session uuid now)))
      <$> l in
  let new e := drop (length (trace st)) (trace (step e st)) in
  Session.quit session = None
  ∧ (∀ e, listeners (step e st) !! ws = Some session)
  ∧ (∀ e, trace (step e st) = trace st ++ new e)
  ∧ sessions (step (SocketClose ws uuid now) st)
    = set_delete session (sessions st)
  ∧ attempts (new (SocketClose ws uuid now))
    = offered (set_delete session (sessions st))
  ∧ attempts (new (SocketError ws uuid now))
    = offered (set_delete session (sessions st))
  ∧ (session ∉ sessions st →
     set_delete session (sessions st) = sessions st).
Proof.
  intros st Hws offered new.
  pose proof (unmarked_run events stored ws session Hws) as Hquit.
  destruct (linked_run events stored) as (_ & Hlive & Hwired & _).
  fold st in Hlive, Hwired.
  destruct (Hwired ws session Hws) as (Hs & Hr & Hlt & _).
  split; [exact Hquit|]. split.
  { intros e. destruct (step_listeners e st) as [->|[request ->]]; [done|].
    rewrite lookup_insert_ne; [done|lia]. }
  split.
  { intros e. subst new. cbv beta. by rewrite step_trace, drop_app_length. }
  split.
  { rewrite step_run, Hws. by rewrite handleClose_run. }
  assert (attempts (close_effects session uuid now st)
          = offered (set_delete session (sessions st))) as Hatt.
  { unfold close_effects, not_quit. rewrite Hquit, attempts_app.
    replace (attempts match sockets st !! Session.webSocket session with
                      | Some Open => [Close (Session.webSocket session)]
                      | _ => []
                      end) with (@nil (nat * Text))
      by (by destruct (sockets st !! _) as [[]|]).
    rewrite app_nil_r. apply attempts_attempt. }
  subst new. cbv beta. rewrite !step_trace, !drop_app_length.
  cbn [step_effects]. rewrite Hws.
  split; [exact Hatt|]. split; [exact Hatt|].
  intros Hnot. unfold set_delete.
  apply forallb_filter_id, forallb_forall. intros s Hin%list_elem_of_In.
  apply negb_true_iff, Nat.eqb_neq. intros Href.
  rewrite Forall_forall in Hlive. pose proof (Hlive s Hin) as Hs'.
  destruct (Hwired _ s Hs') as (_ & Hr' & _).
  assert (Session.webSocket s = ws) as Heq by lia.
  rewrite Heq, Hws in Hs'. congruence.
Qed.

Lemma every_teardown_announces_a_leave_witness :
  let st := run error_events (constructor None) in
  (alice ∉ sessions st)
  ∧ attempts (drop (length (trace st))
                   (trace (step (SocketClose 1 "leave-2" 4000) st)))
    = [(4%nat, MessageText (departed alice "leave-2" 4000))].
Proof.
  split.
  - vm_compute. intros [[=]|H]%elem_of_cons. by apply elem_of_nil in H.
  - destruct (every_teardown_announces_a_leave None error_events
                1%nat alice "leave-2" 4000)
      as (_ & _ & _ & _ & Hclose & _); [vm_compute; reflexivity|].
    etrans; [exact Hclose|]. vm_compute. reflexivity.
Defined.
